(** * The keybinding editing service

    A shallow embedding of
    [src/vs/workbench/services/keybinding/common/keybindingEditing.ts]
    (class [KeybindingsEditingService]) and the properties of its three
    public operations [editKeybinding], [removeKeybinding] and
    [resetKeybinding].

    The service edits the user's keybindings document, a JSON array of
    [{key, command, when?}] objects kept in a backing store.  Each
    operation reads the document into a fresh text model, patches the
    model with textual edits computed by [setProperty], writes the text
    back and releases the model.

    The collaborators the class gets injected or imports (the JSON
    parser, the structural editor [setProperty], [ContextKeyExpr], the
    user data store, the model service) are not part of the file: they
    are parameters of the development, bundled in the records
    [ContextKeys] and [Host].  Reference implementations of them, used
    to run the service on concrete documents, are in module
    [Reference]. *)

From Stdlib Require Import String Ascii List ZArith NArith Lia Bool Arith.
From Stdlib Require Import Sorted.
Import ListNotations.
Open Scope string_scope.

Set Implicit Arguments.

(** ** JavaScript values and completions *)

(** The values [json.parse] produces.  A number keeps its lexeme. *)
#[warnings="-register-all"]
Inductive Json : Type :=
| JNull
| JBool (b : bool)
| JNumber (lexeme : string)
| JString (s : string)
| JArray (items : list Json)
| JObject (props : list (string * Json)).

(** What a call can throw, or a promise reject with. *)
Inductive Error : Type :=
| parseErrors                (* localize('parseErrors', ...) *)
| errorInvalidConfiguration  (* localize('errorInvalidConfiguration', ...) *)
| TypeError                  (* reading a property of undefined *)
| HostError (code : nat).    (* what a collaborator throws or rejects with *)

(** A synchronous computation either returns or throws. *)
Inductive Exn (A : Type) : Type :=
| Ok (a : A)
| Throw (e : Error).

Arguments Ok {A} a.
Arguments Throw {A} e.

Definition bind {A B : Type} (m : Exn A) (k : A -> Exn B) : Exn B :=
  match m with
  | Ok a => k a
  | Throw e => Throw e
  end.

Notation "x <- m ;; k" := (bind m (fun x => k))
  (at level 61, m at next level, right associativity).

(** Truthiness of a string: only the empty string is falsy. *)
Definition truthy (s : string) : bool := negb (s =? "").

(** Truthiness of [string | undefined] and [string | null]. *)
Definition truthy_opt (s : option string) : bool :=
  match s with
  | Some s => truthy s
  | None => false
  end.

(** [s || d] for a string that may be missing. *)
Definition orElse (s : option string) (d : string) : string :=
  match s with
  | Some text => if truthy text then text else d
  | None => d
  end.

Definition isSome {A : Type} (o : option A) : bool :=
  match o with
  | Some _ => true
  | None => false
  end.

(** A number is falsy when it is zero.  The value of a number is the
    double nearest to its literal, so a literal is zero when its
    magnitude is at most 2^-1075, half of the least positive double:
    0, -0 and 0.0e7 are zero, and so is 1e-400.

    The literal is read as JSON writes numbers: a sign, digits, a
    fraction, an exponent.  [mantissa] is the number its digits spell
    without the point, [fraction] the count of digits after the point,
    [exponent] the digits after the sign of the exponent. *)
Inductive NumberPart : Type := Mantissa | Fraction | Exponent.

Definition digitOf (c : ascii) : option N :=
  let n := N_of_ascii c in
  if ((48 <=? n) && (n <=? 57))%N then Some (n - 48)%N else None.

Fixpoint decimalOf (s : string) (part : NumberPart)
    (mantissa fraction : N) (negative : bool) (exponent : N) : N * Z :=
  match s with
  | EmptyString =>
      (mantissa,
       ((if negative then - Z.of_N exponent else Z.of_N exponent)
        - Z.of_N fraction)%Z)
  | String c rest =>
      match digitOf c, part with
      | Some d, Mantissa =>
          decimalOf rest part (10 * mantissa + d)%N fraction negative exponent
      | Some d, Fraction =>
          decimalOf rest part (10 * mantissa + d)%N (fraction + 1)%N negative
            exponent
      | Some d, Exponent =>
          decimalOf rest part mantissa fraction negative (10 * exponent + d)%N
      | None, _ =>
          if (c =? ".")%char
          then decimalOf rest Fraction mantissa fraction negative exponent
          else if (c =? "e")%char || (c =? "E")%char
          then decimalOf rest Exponent mantissa fraction negative exponent
          else if (c =? "-")%char
          then
            match part with
            | Exponent => decimalOf rest part mantissa fraction true exponent
            | _ => decimalOf rest part mantissa fraction negative exponent
            end
          else decimalOf rest part mantissa fraction negative exponent
      end
  end.

(** The literal stands for [mantissa * 10^exponent]. *)
Definition zeroLexeme (s : string) : bool :=
  let (mantissa, exponent) := decimalOf s Mantissa 0 0 false 0 in
  (mantissa =? 0)%N
  || ((exponent <? 0)%Z
      && (Z.of_N mantissa * 2 ^ 1075 <=? 10 ^ (- exponent))%Z).

(** Truthiness of a parsed value, [undefined] being [None]. *)
Definition truthy_json (v : option Json) : bool :=
  match v with
  | None => false
  | Some JNull => false
  | Some (JBool b) => b
  | Some (JNumber n) => negb (zeroLexeme n)
  | Some (JString s) => truthy s
  | Some (JArray _) => true
  | Some (JObject _) => true
  end.

(** [isArray] of vs/base/common/types. *)
Definition isArray (v : option Json) : bool :=
  match v with
  | Some (JArray _) => true
  | _ => false
  end.

(** ** Text *)

(** The first [n] characters of [s], and [s] without them. *)
Fixpoint takeString (n : nat) (s : string) : string :=
  match n, s with
  | S n', String c rest => String c (takeString n' rest)
  | _, _ => EmptyString
  end.

Fixpoint dropString (n : nat) (s : string) : string :=
  match n, s with
  | S n', String _ rest => dropString n' rest
  | _, _ => s
  end.

(** Line terminator of a text model. *)
Inductive EndOfLine : Type := LF | CRLF.

Definition eolText (e : EndOfLine) : string :=
  match e with
  | LF => String (ascii_of_nat 10) EmptyString
  | CRLF => String (ascii_of_nat 13) (String (ascii_of_nat 10) EmptyString)
  end.

(** ** Data of the service *)

(** [IUserFriendlyKeybinding]: one entry of the document. *)
Record IUserFriendlyKeybinding : Type := {
  key : string;
  command : string;
  when : option string
}.

(** [ResolvedKeybinding], of which the service only asks the label. *)
Record ResolvedKeybinding : Type := {
  getUserSettingsLabel : option string
}.

(** [Edit] of vs/base/common/jsonFormatter. *)
Record Edit : Type := {
  offset : nat;
  length : nat;
  content : string
}.

(** A segment of a JSON path: an array index or a property name. *)
Inductive Segment : Type :=
| Index (i : Z)
| Property (name : string).

Definition JSONPath : Type := list Segment.

(** The formatting options handed to [setProperty]. *)
Record FormattingOptions : Type := {
  tabSize : nat;
  insertSpaces : bool;
  eol : string
}.

(** The options of a text model, [model.getOptions()]. *)
Record TextModelResolvedOptions : Type := {
  optTabSize : nat;
  optInsertSpaces : bool
}.

(** Error codes of the JSON parser. *)
Inductive ParseErrorCode : Type :=
| InvalidSymbol
| ValueExpected
| ColonExpected
| CommaExpected
| PropertyNameExpected
| CloseBraceExpected
| CloseBracketExpected
| EndOfFileExpected
| UnexpectedEndOfString
| UnexpectedEndOfComment.

(** ** The text model

    Modelled from the spec: [ITextModel] is an interface of the editor,
    its implementation is outside this file.  A model is its text, its
    line terminator and its options; a position is an offset into the
    text, clamped to the text as [getPositionAt] does. *)
Record ITextModel : Type := {
  value : string;
  EOL : EndOfLine;
  options : TextModelResolvedOptions
}.

Definition getValue (model : ITextModel) : string := value model.
Definition getEOL (model : ITextModel) : string := eolText (EOL model).
Definition getOptions (model : ITextModel) : TextModelResolvedOptions :=
  options model.

Definition Position : Type := nat.
Definition Range : Type := (Position * Position)%type.

Definition getPositionAt (model : ITextModel) (off : nat) : Position :=
  Nat.min off (String.length (getValue model)).

Definition getValueInRange (model : ITextModel) (range : Range) : string :=
  takeString (snd range - fst range) (dropString (fst range) (getValue model)).

Inductive EditOperation : Type :=
| replace (range : Range) (text : string)
| insert (position : Position) (text : string).

Definition setValue (model : ITextModel) (text : string) : ITextModel :=
  {| value := text; EOL := EOL model; options := options model |}.

(** One edit operation pushed on the model. *)
Definition pushEditOperation (model : ITextModel) (op : EditOperation)
  : ITextModel :=
  let text := getValue model in
  match op with
  | replace (s, e) new =>
      setValue model (takeString s text ++ new ++ dropString e text)
  | insert p new =>
      setValue model (takeString p text ++ new ++ dropString p text)
  end.

Definition pushEditOperations (model : ITextModel) (ops : list EditOperation)
  : ITextModel :=
  fold_left pushEditOperation ops model.

(** ** Collaborators *)

(** [ContextKeyExpr]: the canonicalizer of when-expressions. *)
Record ContextKeys : Type := {
  ContextKeyExpr : Type;
  deserialize : string -> option ContextKeyExpr;
  serialize : ContextKeyExpr -> string
}.

(** The other collaborators: [json.parse], [setProperty] of
    vs/base/common/jsonEdit, the model service (which chooses the line
    terminator and the options of a model it creates) and the user data
    service over its own state. *)
Record Host : Type := {
  json_parse : string -> option Json * list ParseErrorCode;
  setProperty :
    string -> JSONPath -> option Json -> FormattingOptions -> Exn (list Edit);
  modelEOL : string -> EndOfLine;
  modelOptions : string -> TextModelResolvedOptions;
  Store : Type;
  read : Store -> Exn (option string);
  write : string -> Store -> Exn unit * Store
}.

(** [ResolvedKeybindingItem]: the binding an operation is about. *)
Record ResolvedKeybindingItem (K : ContextKeys) : Type := {
  resolvedKeybinding : option ResolvedKeybinding;
  itemCommand : option string;          (* command: string | null *)
  itemWhen : option (ContextKeyExpr K); (* when: ContextKeyExpr | null *)
  isDefault : bool
}.

(** ** Asynchronous tasks

    An [async] method is a task: it runs synchronously up to an [await]
    of the user data service, where it is suspended until the read or
    the write settles.  Creating, disposing and destroying a model are
    synchronous calls whose effect on the model service is recorded. *)
Inductive ModelEvent : Type := Created | Disposed | Destroyed.

Inductive Task (A : Type) : Type :=
| Return (a : A)
| Reject (e : Error)
| AwaitRead (k : Exn (option string) -> Task A)
| AwaitWrite (text : string) (k : Exn unit -> Task A)
| Models (ev : ModelEvent) (k : Task A).

Arguments Return {A} a.
Arguments Reject {A} e.
Arguments AwaitRead {A} k.
Arguments AwaitWrite {A} text k.
Arguments Models {A} ev k.

Fixpoint andThen {A B : Type} (t : Task A) (f : A -> Task B) : Task B :=
  match t with
  | Return a => f a
  | Reject e => Reject e
  | AwaitRead k => AwaitRead (fun r => andThen (k r) f)
  | AwaitWrite text k => AwaitWrite text (fun r => andThen (k r) f)
  | Models ev k => Models ev (andThen k f)
  end.

Notation "x <~ t ;; k" := (andThen t (fun x => k))
  (at level 61, t at next level, right associativity).

(** A synchronous step inside a task: a throw rejects the promise. *)
Definition settle {A : Type} (m : Exn A) : Task A :=
  match m with
  | Ok a => Return a
  | Throw e => Reject e
  end.

(** [await p]: the value of [p], or its rejection thrown. *)
Definition awaited {A B : Type} (r : Exn A) (k : A -> Task B) : Task B :=
  match r with
  | Ok a => k a
  | Throw e => Reject e
  end.

(** ** The service *)

Section KeybindingsEditingService.

Variable K : ContextKeys.
Variable H : Host.

(** A property of an object; of two properties of the same name the
    later one counts. *)
Fixpoint lookupProperty (name : string) (props : list (string * Json))
  : option Json :=
  match props with
  | [] => None
  | (n, v) :: rest =>
      match lookupProperty name rest with
      | Some later => Some later
      | None => if n =? name then Some v else None
      end
  end.

(** A parsed value as an [IUserFriendlyKeybinding]: an object with a
    string [key], a string [command] and, if it has one, a string
    [when].  Other properties of an entry, such as [args], are not read
    by the service. *)
Definition asEntry (v : Json) : option IUserFriendlyKeybinding :=
  match v with
  | JObject props =>
      match lookupProperty "key" props, lookupProperty "command" props with
      | Some (JString k), Some (JString c) =>
          match lookupProperty "when" props with
          | None => Some {| key := k; command := c; when := None |}
          | Some (JString w) =>
              Some {| key := k; command := c; when := Some w |}
          | Some _ => None
          end
      | _, _ => None
      end
  | _ => None
  end.

Fixpoint asEntries (items : list Json)
  : option (list IUserFriendlyKeybinding) :=
  match items with
  | [] => Some []
  | v :: rest =>
      match asEntry v, asEntries rest with
      | Some e, Some es => Some (e :: es)
      | _, _ => None
      end
  end.

(** [<IUserFriendlyKeybinding[]>json.parse(text)].  The cast checks
    nothing; the model takes the declared type at its word and covers
    the documents that have it: arrays of objects with a string [key],
    a string [command] and, if any, a string [when].  On another
    document the code goes on with the values as they are (and throws a
    [TypeError] where it reads a property of [undefined] or [null]);
    the model stops there with a [TypeError], and the properties of the
    patches are stated for documents of the declared type. *)
Definition userKeybindingEntriesOf (text : string)
  : Exn (list IUserFriendlyKeybinding) :=
  match fst (json_parse H text) with
  | Some (JArray items) =>
      match asEntries items with
      | Some entries => Ok entries
      | None => Throw TypeError
      end
  | _ => Throw TypeError
  end.

(** [{ tabSize, insertSpaces, eol }] as every patch function builds it. *)
Definition formatting (model : ITextModel) : FormattingOptions :=
  {| tabSize := optTabSize (getOptions model);
     insertSpaces := optInsertSpaces (getOptions model);
     eol := getEOL model |}.

(** [findUserKeybindingEntryIndex], the loop from [index] on. *)
Fixpoint findUserKeybindingEntryIndexFrom
    (keybindingItem : ResolvedKeybindingItem K)
    (userKeybindingEntries : list IUserFriendlyKeybinding) (index : Z) : Z :=
  match userKeybindingEntries with
  | [] => (-1)%Z
  | keybinding :: rest =>
      let next :=
        findUserKeybindingEntryIndexFrom keybindingItem rest (index + 1)%Z in
      match itemCommand keybindingItem with
      | Some c =>
          if command keybinding =? c then
            if negb (truthy_opt (when keybinding))
               && negb (isSome (itemWhen keybindingItem))
            then index
            else
              match when keybinding, itemWhen keybindingItem with
              | Some w, Some itemWhen =>
                  if truthy w then
                    match deserialize K w with
                    | Some contextKeyExpr =>
                        if serialize K contextKeyExpr =? serialize K itemWhen
                        then index
                        else next
                    | None => next
                    end
                  else next
              | _, _ => next
              end
          else next
      | None => next
      end
  end.

Definition findUserKeybindingEntryIndex
    (keybindingItem : ResolvedKeybindingItem K)
    (userKeybindingEntries : list IUserFriendlyKeybinding) : Z :=
  findUserKeybindingEntryIndexFrom keybindingItem userKeybindingEntries 0%Z.

(** [`-${keybindingItem.command}`]: a null command prints as "null". *)
Definition negated (c : option string) : string :=
  "-" ++ match c with
         | Some c => c
         | None => "null"
         end.

Fixpoint findUnassignedDefaultKeybindingEntryIndexFrom
    (keybindingItem : ResolvedKeybindingItem K)
    (userKeybindingEntries : list IUserFriendlyKeybinding) (index : Z)
  : list Z :=
  match userKeybindingEntries with
  | [] => []
  | keybinding :: rest =>
      let indices :=
        findUnassignedDefaultKeybindingEntryIndexFrom keybindingItem rest
          (index + 1)%Z in
      if command keybinding =? negated (itemCommand keybindingItem)
      then index :: indices
      else indices
  end.

Definition findUnassignedDefaultKeybindingEntryIndex
    (keybindingItem : ResolvedKeybindingItem K)
    (userKeybindingEntries : list IUserFriendlyKeybinding) : list Z :=
  findUnassignedDefaultKeybindingEntryIndexFrom keybindingItem
    userKeybindingEntries 0%Z.

Definition asObject (key : string) (command : option string)
    (when : option string) (negate : bool) : Json :=
  JObject
    ([("key", JString key)]
     ++ (match command with
         | Some c =>
             if truthy c
             then [("command", JString (if negate then "-" ++ c else c))]
             else []
         | None => []
         end)
     ++ (match when with
         | Some w => if truthy w then [("when", JString w)] else []
         | None => []
         end)).

(** [applyEditsToBuffer].  The edit is [edits[0]], which is
    [undefined] when [setProperty] returned no edit: reading its
    [offset] then throws. *)
Definition applyEditsToBuffer (edit : option Edit) (model : ITextModel)
  : Exn ITextModel :=
  match edit with
  | None => Throw TypeError
  | Some edit =>
      let startPosition := getPositionAt model (offset edit) in
      let endPosition := getPositionAt model (offset edit + length edit) in
      let range := (startPosition, endPosition) in
      let currentText := getValueInRange model range in
      let editOperation :=
        if truthy currentText
        then replace range (content edit)
        else insert startPosition (content edit) in
      Ok (pushEditOperations model [editOperation])
  end.

Definition updateKeybinding
    (keybindingItem : ResolvedKeybindingItem K) (newKey : string)
    (when : option string) (model : ITextModel)
    (userKeybindingEntryIndex : Z) : Exn ITextModel :=
  let fmt := formatting model in
  if negb (userKeybindingEntryIndex =? -1)%Z then
    edits0 <- setProperty H (getValue model)
                [Index userKeybindingEntryIndex; Property "key"]
                (Some (JString newKey)) fmt ;;
    model1 <- applyEditsToBuffer (nth_error edits0 0) model ;;
    edits <- setProperty H (getValue model1)
               [Index userKeybindingEntryIndex; Property "when"]
               (option_map JString when) fmt ;;
    if (0 <? List.length edits)%nat
    then applyEditsToBuffer (nth_error edits 0) model1
    else Ok model1
  else
    edits <- setProperty H (getValue model) [Index (-1)]
               (Some (asObject newKey (itemCommand keybindingItem) when false))
               fmt ;;
    applyEditsToBuffer (nth_error edits 0) model.

Definition removeUserKeybinding
    (keybindingItem : ResolvedKeybindingItem K) (model : ITextModel)
  : Exn ITextModel :=
  let fmt := formatting model in
  userKeybindingEntries <- userKeybindingEntriesOf (getValue model) ;;
  let userKeybindingEntryIndex :=
    findUserKeybindingEntryIndex keybindingItem userKeybindingEntries in
  if negb (userKeybindingEntryIndex =? -1)%Z then
    edits <- setProperty H (getValue model) [Index userKeybindingEntryIndex]
               None fmt ;;
    applyEditsToBuffer (nth_error edits 0) model
  else Ok model.

Definition removeDefaultKeybinding (keybindingItem : ResolvedKeybindingItem K)
    (model : ITextModel) : Exn ITextModel :=
  let fmt := formatting model in
  let key :=
    match resolvedKeybinding keybindingItem with
    | Some rk => getUserSettingsLabel rk
    | None => None
    end in
  match key with
  | Some key =>
      if truthy key then
        edits <- setProperty H (getValue model) [Index (-1)]
                   (Some (asObject key (itemCommand keybindingItem)
                            (option_map (serialize K)
                               (itemWhen keybindingItem))
                            true))
                   fmt ;;
        applyEditsToBuffer (nth_error edits 0) model
      else Ok model
  | None => Ok model
  end.

(** The loop of [removeUnassignedDefaultKeybinding] over the reversed
    indices. *)
Fixpoint removeEach (indices : list Z) (fmt : FormattingOptions)
    (model : ITextModel) : Exn ITextModel :=
  match indices with
  | [] => Ok model
  | index :: rest =>
      edits <- setProperty H (getValue model) [Index index] None fmt ;;
      model' <- applyEditsToBuffer (nth_error edits 0) model ;;
      removeEach rest fmt model'
  end.

Definition removeUnassignedDefaultKeybinding
    (keybindingItem : ResolvedKeybindingItem K)
    (model : ITextModel) : Exn ITextModel :=
  let fmt := formatting model in
  userKeybindingEntries <- userKeybindingEntriesOf (getValue model) ;;
  let indices :=
    rev (findUnassignedDefaultKeybindingEntryIndex keybindingItem
           userKeybindingEntries) in
  removeEach indices fmt model.

(** [parse]: the value and the errors of [json.parse]. *)
Definition parse (model : ITextModel) : option Json * list ParseErrorCode :=
  json_parse H (getValue model).

(** [getEmptyContent], with the message of [localize]. *)
Definition getEmptyContent (EOL : string) : string :=
  "// " ++ "Place your key bindings in this file to override the defaults"
  ++ EOL ++ "[]".

(** A text with every line break (a carriage return and a line feed,
    or one of them alone) written as [eol].  [afterCR] tells that the
    character before was a carriage return. *)
Fixpoint normalizeEOL (eol : string) (afterCR : bool) (s : string) : string :=
  match s with
  | EmptyString => EmptyString
  | String c rest =>
      if (c =? ascii_of_nat 13)%char then eol ++ normalizeEOL eol true rest
      else if (c =? ascii_of_nat 10)%char then
        if afterCR then normalizeEOL eol false rest
        else eol ++ normalizeEOL eol false rest
      else String c (normalizeEOL eol false rest)
  end.

(** Modelled from the spec: [modelService.createModel(content, ...)];
    the model service is outside this file.  The design has it as
    [createBuffer(initialText, languageHint, identity) -> Buffer], a
    buffer with one line terminator and its formatting options.  The
    service chooses the line terminator and the options (parameters of
    the host); the buffer holds the text it is given with its line
    breaks written as that terminator.  The service keeps the buffers
    it has created until they are destroyed; a service that refuses to
    create a buffer is not modelled. *)
Definition createModel (content : string) : ITextModel :=
  {| value := normalizeEOL (eolText (modelEOL H content)) false content;
     EOL := modelEOL H content;
     options := modelOptions H content |}.

Definition resolveModel : Task ITextModel :=
  AwaitRead (fun r =>
    awaited r (fun stored =>
      let content := orElse stored "[]" in
      Models Created (Return (createModel content)))).

(** What [resolveAndValidate] does with the model once it is
    resolved. *)
Definition validate (model : ITextModel) : Exn ITextModel :=
  let EOL := getEOL model in
  if truthy (getValue model) then
    let parsed := parse model in
    if (0 <? List.length (snd parsed))%nat then Throw parseErrors
    else if truthy_json (fst parsed) then
      if negb (isArray (fst parsed)) then Throw errorInvalidConfiguration
      else Ok model
    else
      let content := EOL ++ "[]" in
      applyEditsToBuffer
        (Some {| content := content;
                 length := String.length content;
                 offset := String.length (getValue model) |})
        model
  else
    let content := getEmptyContent EOL in
    applyEditsToBuffer
      (Some {| content := content;
               length := String.length content;
               offset := 0 |})
      model.

Definition resolveAndValidate : Task ITextModel :=
  model <~ resolveModel ;;
  settle (validate model).

Definition save (model : ITextModel) : Task unit :=
  AwaitWrite (getValue model) (fun r =>
    awaited r (fun _ =>
      Models Disposed (Models Destroyed (Return tt)))).

(** The callbacks of the three operations, up to the call of
    [save]. *)
Definition editPatches
    (keybindingItem : ResolvedKeybindingItem K) (key : string)
    (when : option string) (model : ITextModel) : Exn ITextModel :=
  userKeybindingEntries <- userKeybindingEntriesOf (getValue model) ;;
  let userKeybindingEntryIndex :=
    findUserKeybindingEntryIndex keybindingItem userKeybindingEntries in
  model1 <- updateKeybinding keybindingItem key when model
              userKeybindingEntryIndex ;;
  if isDefault keybindingItem && isSome (resolvedKeybinding keybindingItem)
  then removeDefaultKeybinding keybindingItem model1
  else Ok model1.

Definition removePatches
    (keybindingItem : ResolvedKeybindingItem K) (model : ITextModel)
  : Exn ITextModel :=
  if isDefault keybindingItem
  then removeDefaultKeybinding keybindingItem model
  else removeUserKeybinding keybindingItem model.

Definition resetPatches
    (keybindingItem : ResolvedKeybindingItem K) (model : ITextModel)
  : Exn ITextModel :=
  if negb (isDefault keybindingItem) then
    model1 <- removeUserKeybinding keybindingItem model ;;
    removeUnassignedDefaultKeybinding keybindingItem model1
  else Ok model.

Definition doEditKeybinding
    (keybindingItem : ResolvedKeybindingItem K) (key : string)
    (when : option string) : Task unit :=
  model <~ resolveAndValidate ;;
  model' <~ settle (editPatches keybindingItem key when model) ;;
  save model'.

Definition doRemoveKeybinding
    (keybindingItem : ResolvedKeybindingItem K) : Task unit :=
  model <~ resolveAndValidate ;;
  model' <~ settle (removePatches keybindingItem model) ;;
  save model'.

Definition doResetKeybinding
    (keybindingItem : ResolvedKeybindingItem K) : Task unit :=
  model <~ resolveAndValidate ;;
  model' <~ settle (resetPatches keybindingItem model) ;;
  save model'.

End KeybindingsEditingService.

(** ** Running tasks against the collaborators

    The world a task runs in is the state of the user data service and
    the record of what the task did to its collaborators, in order. *)

Inductive IOEvent : Type :=
| DidRead
| DidWrite (text : string)
| DidModel (ev : ModelEvent).

Record World (H : Host) : Type := {
  store : Store H;
  log : list IOEvent
}.

Section Running.

Variable H : Host.

Definition record (ev : IOEvent) (w : World H) : World H :=
  {| store := store w; log := log w ++ [ev] |}.

Definition doRead (w : World H) : World H * Exn (option string) :=
  (record DidRead w, read H (store w)).

Definition doWrite (text : string) (w : World H) : World H * Exn unit :=
  let (r, s) := write H text (store w) in
  ({| store := s; log := log w ++ [DidWrite text] |}, r).

(** A task run to its end. *)
Fixpoint run {A : Type} (t : Task A) (w : World H) : World H * Exn A :=
  match t with
  | Return a => (w, Ok a)
  | Reject e => (w, Throw e)
  | AwaitRead k => let (w', r) := doRead w in run (k r) w'
  | AwaitWrite text k => let (w', r) := doWrite text w in run (k r) w'
  | Models ev k => run k (record (DidModel ev) w)
  end.

(** The synchronous part of a task: up to its next [await], or to its
    end. *)
Fixpoint advance {A : Type} (t : Task A) (w : World H) : World H * Task A :=
  match t with
  | Models ev k => advance k (record (DidModel ev) w)
  | _ => (w, t)
  end.

(** The awaited promise settles: the task goes on to its next
    [await], or to its end. *)
Definition resume {A : Type} (t : Task A) (w : World H) : World H * Task A :=
  match t with
  | AwaitRead k => let (w', r) := doRead w in advance (k r) w'
  | AwaitWrite text k => let (w', r) := doWrite text w in advance (k r) w'
  | _ => advance t w
  end.

(** How many [await]s the task still goes through in this world. *)
Fixpoint awaits {A : Type} (t : Task A) (w : World H) : nat :=
  match t with
  | Return _ => 0
  | Reject _ => 0
  | AwaitRead k => let (w', r) := doRead w in S (awaits (k r) w')
  | AwaitWrite text k => let (w', r) := doWrite text w in S (awaits (k r) w')
  | Models ev k => awaits k (record (DidModel ev) w)
  end.

Definition countModel (ev : ModelEvent) (l : list IOEvent) : nat :=
  List.length
    (filter (fun e => match e, ev with
                      | DidModel Created, Created => true
                      | DidModel Disposed, Disposed => true
                      | DidModel Destroyed, Destroyed => true
                      | _, _ => false
                      end) l).

(** The models the model service still holds. *)
Definition liveModels (w : World H) : nat :=
  countModel Created (log w) - countModel Destroyed (log w).

Definition writes (l : list IOEvent) : list string :=
  flat_map (fun e => match e with
                     | DidWrite text => [text]
                     | _ => []
                     end) l.

(** ** The queue

    Modelled from the spec: [Queue] of vs/base/common/async is outside
    this file.  It is a strict first-in first-out queue with one
    worker: a queued factory is called when every factory queued
    before it has been called and its promise has settled, fulfilled
    or rejected. *)
Record Queue : Type := {
  running : option (Task unit);      (* the promise the worker waits for *)
  outstanding : list (Task unit);    (* factories not called yet *)
  settled : list (Exn unit)          (* outcomes, in the order of the calls *)
}.

Definition Service : Type := (World H * Queue)%type.

(** The worker takes factories while it has nothing to wait for. *)
Fixpoint consume (w : World H) (factories : list (Task unit))
    (outcomes : list (Exn unit)) : Service :=
  match factories with
  | [] => (w, {| running := None; outstanding := []; settled := outcomes |})
  | factory :: rest =>
      match advance factory w with
      | (w', Return a) => consume w' rest (outcomes ++ [Ok a])
      | (w', Reject e) => consume w' rest (outcomes ++ [Throw e])
      | (w', t) =>
          (w', {| running := Some t; outstanding := rest;
                  settled := outcomes |})
      end
  end.

(** [queue.queue(factory)]. *)
Definition queue (factory : Task unit) (s : Service) : Service :=
  let (w, q) := s in
  match running q with
  | Some t =>
      (w, {| running := Some t;
             outstanding := outstanding q ++ [factory];
             settled := settled q |})
  | None => consume w (outstanding q ++ [factory]) (settled q)
  end.

(** A turn of the event loop in which the awaited promise of the
    running task settles. *)
Definition turn (s : Service) : Service :=
  let (w, q) := s in
  match running q with
  | Some t =>
      match resume t w with
      | (w', Return a) => consume w' (outstanding q) (settled q ++ [Ok a])
      | (w', Reject e) => consume w' (outstanding q) (settled q ++ [Throw e])
      | (w', t') =>
          (w', {| running := Some t'; outstanding := outstanding q;
                  settled := settled q |})
      end
  | None => s
  end.

Fixpoint turns (n : nat) (s : Service) : Service :=
  match n with
  | O => s
  | S n' => turns n' (turn s)
  end.

Definition idle (s : Service) : bool :=
  match running (snd s), outstanding (snd s) with
  | None, [] => true
  | _, _ => false
  end.

Definition start (w : World H) : Service :=
  (w, {| running := None; outstanding := []; settled := [] |}).

(** The same tasks run one at a time, each to its end before the next
    begins. *)
Fixpoint oneAtATime (tasks : list (Task unit)) (w : World H)
    (outcomes : list (Exn unit)) : World H * list (Exn unit) :=
  match tasks with
  | [] => (w, outcomes)
  | t :: rest =>
      let (w', r) := run t w in
      oneAtATime rest w' (outcomes ++ [r])
  end.

End Running.

(** ** The public operations *)

Section PublicOperations.

Variable K : ContextKeys.
Variable H : Host.

(** A call of one of the three methods. *)
Inductive Request : Type :=
| EditKeybinding (keybindingItem : ResolvedKeybindingItem K) (key : string)
    (when : option string)
| ResetKeybinding (keybindingItem : ResolvedKeybindingItem K)
| RemoveKeybinding (keybindingItem : ResolvedKeybindingItem K).

Definition editKeybinding (keybindingItem : ResolvedKeybindingItem K)
    (key : string) (when : option string) (s : Service H) : Service H :=
  queue (doEditKeybinding H keybindingItem key when) s.

Definition resetKeybinding (keybindingItem : ResolvedKeybindingItem K)
    (s : Service H) : Service H :=
  queue (doResetKeybinding H keybindingItem) s.

Definition removeKeybinding (keybindingItem : ResolvedKeybindingItem K)
    (s : Service H) : Service H :=
  queue (doRemoveKeybinding H keybindingItem) s.

Definition call (r : Request) (s : Service H) : Service H :=
  match r with
  | EditKeybinding item key when => editKeybinding item key when s
  | ResetKeybinding item => resetKeybinding item s
  | RemoveKeybinding item => removeKeybinding item s
  end.

(** The read-modify-write-persist cycle of a request. *)
Definition cycle (r : Request) : Task unit :=
  match r with
  | EditKeybinding item key when => doEditKeybinding H item key when
  | ResetKeybinding item => doResetKeybinding H item
  | RemoveKeybinding item => doRemoveKeybinding H item
  end.

(** What the callback of a request does to the model before it calls
    [save]. *)
Definition patches (r : Request) (model : ITextModel) : Exn ITextModel :=
  match r with
  | EditKeybinding item key when => editPatches H item key when model
  | ResetKeybinding item => resetPatches H item model
  | RemoveKeybinding item => removePatches H item model
  end.

(** What happens to the service: a method is called, or the event
    loop turns. *)
Inductive Happening : Type :=
| Called (r : Request)
| Turned.

Definition happen (s : Service H) (h : Happening) : Service H :=
  match h with
  | Called r => call r s
  | Turned => turn s
  end.

Fixpoint requestsOf (hs : list Happening) : list Request :=
  match hs with
  | [] => []
  | Called r :: rest => r :: requestsOf rest
  | Turned :: rest => requestsOf rest
  end.

End PublicOperations.

(** ** Reference collaborators

    Modelled from the spec: the JSON parser, the structural editor, the
    canonicalizer of when-expressions, the model service and the backing
    store are collaborators outside this file.  The implementations
    below follow their contracts in the design (a JSON parser with
    comments returning a value and errors, an editor computing minimal
    edits, a canonicalizer with [parse] and [serialize], a store with
    [read] and [write]) and serve to run the service on concrete
    documents. *)

Module Reference.

Definition quote : ascii := ascii_of_nat 34.
Definition backslash : ascii := ascii_of_nat 92.
Definition lineFeed : ascii := ascii_of_nat 10.
Definition carriageReturn : ascii := ascii_of_nat 13.
Definition tab : ascii := ascii_of_nat 9.

(** Texts are written with single quotes where JSON has double
    quotes. *)
Fixpoint json (s : string) : string :=
  match s with
  | EmptyString => EmptyString
  | String c rest =>
      String (if (c =? "'")%char then quote else c) (json rest)
  end.

Fixpoint revOnto (s acc : string) : string :=
  match s with
  | EmptyString => acc
  | String c rest => revOnto rest (String c acc)
  end.

Fixpoint trimLeft (s : string) : string :=
  match s with
  | String c rest => if (c =? " ")%char then trimLeft rest else s
  | EmptyString => EmptyString
  end.

Definition trim (s : string) : string :=
  revOnto (trimLeft (revOnto (trimLeft s) "")) "".

(** *** When-expressions

    An expression is a conjunction of context keys; its canonical form
    lists the keys in order. *)
Fixpoint splitAnd (s current : string) : list string :=
  match s with
  | EmptyString => [current]
  | String c rest =>
      match rest with
      | String c' rest' =>
          if (c =? "&")%char && (c' =? "&")%char
          then current :: splitAnd rest' ""
          else splitAnd rest (current ++ String c "")
      | EmptyString => [current ++ String c ""]
      end
  end.

Fixpoint insertKey (k : string) (ks : list string) : list string :=
  match ks with
  | [] => [k]
  | k' :: rest =>
      if String.leb k k' then k :: ks else k' :: insertKey k rest
  end.

Definition sortKeys (ks : list string) : list string :=
  fold_right insertKey [] ks.

(** Only the empty text has no expression. *)
Definition deserialize (serialized : string) : option (list string) :=
  if serialized =? "" then None
  else Some (sortKeys (map trim (splitAnd serialized ""))).

Definition serialize (expr : list string) : string :=
  String.concat " && " expr.

Definition contextKeys : ContextKeys :=
  Build_ContextKeys deserialize serialize.

(** *** The scanner *)

Inductive SyntaxKind : Type :=
| OpenBraceToken
| CloseBraceToken
| OpenBracketToken
| CloseBracketToken
| CommaToken
| ColonToken
| StringLiteral (s : string)
| NumericLiteral (lexeme : string)
| TrueKeyword
| FalseKeyword
| NullKeyword
| Unknown (code : ParseErrorCode).

Record Token : Type := {
  kind : SyntaxKind;
  tokenOffset : nat;
  tokenLength : nat
}.

Definition isLineBreak (c : ascii) : bool :=
  (c =? lineFeed)%char || (c =? carriageReturn)%char.

Definition isWhiteSpace (c : ascii) : bool :=
  (c =? " ")%char || (c =? tab)%char || isLineBreak c.

Definition isDigit (c : ascii) : bool :=
  (48 <=? nat_of_ascii c)%nat && (nat_of_ascii c <=? 57)%nat.

Definition isLetter (c : ascii) : bool :=
  (97 <=? nat_of_ascii c)%nat && (nat_of_ascii c <=? 122)%nat.

Definition isNumberPart (c : ascii) : bool :=
  isDigit c || (c =? "+")%char || (c =? "-")%char || (c =? ".")%char
  || (c =? "e")%char || (c =? "E")%char.

(** Characters up to the end of the line. *)
Fixpoint lineCommentLength (s : string) : nat :=
  match s with
  | EmptyString => 0
  | String c rest => if isLineBreak c then 0 else S (lineCommentLength rest)
  end.

(** Characters up to and with the end of a block comment. *)
Fixpoint blockCommentLength (s : string) : option nat :=
  match s with
  | EmptyString => None
  | String c rest =>
      match rest with
      | String c' _ =>
          if (c =? "*")%char && (c' =? "/")%char then Some 2
          else option_map S (blockCommentLength rest)
      | EmptyString => None
      end
  end.

Definition unescape (c : ascii) : option ascii :=
  if (c =? quote)%char then Some quote
  else if (c =? backslash)%char then Some backslash
  else if (c =? "/")%char then Some "/"%char
  else if (c =? "n")%char then Some lineFeed
  else if (c =? "r")%char then Some carriageReturn
  else if (c =? "t")%char then Some tab
  else if (c =? "b")%char then Some (ascii_of_nat 8)
  else if (c =? "f")%char then Some (ascii_of_nat 12)
  else None.

(** The value of a string literal after its opening quote, and the
    characters read, the closing quote among them. *)
Fixpoint stringLiteral (s : string) : option (string * nat) :=
  match s with
  | EmptyString => None
  | String c rest =>
      if (c =? quote)%char then Some (EmptyString, 1)
      else if isLineBreak c then None
      else if (c =? backslash)%char then
        match rest with
        | String e rest' =>
            match unescape e, stringLiteral rest' with
            | Some ch, Some (v, n) => Some (String ch v, S (S n))
            | _, _ => None
            end
        | EmptyString => None
        end
      else
        match stringLiteral rest with
        | Some (v, n) => Some (String c v, S n)
        | None => None
        end
  end.

Fixpoint spanLength (p : ascii -> bool) (s : string) : nat :=
  match s with
  | EmptyString => 0
  | String c rest => if p c then S (spanLength p rest) else 0
  end.

Definition token (k : SyntaxKind) (off len : nat) : Token :=
  {| kind := k; tokenOffset := off; tokenLength := len |}.

Definition punctuation (c : ascii) : option SyntaxKind :=
  if (c =? "{")%char then Some OpenBraceToken
  else if (c =? "}")%char then Some CloseBraceToken
  else if (c =? "[")%char then Some OpenBracketToken
  else if (c =? "]")%char then Some CloseBracketToken
  else if (c =? ",")%char then Some CommaToken
  else if (c =? ":")%char then Some ColonToken
  else None.

Definition keyword (word : string) : SyntaxKind :=
  if word =? "true" then TrueKeyword
  else if word =? "false" then FalseKeyword
  else if word =? "null" then NullKeyword
  else Unknown InvalidSymbol.

(** The tokens of [s], which starts at offset [pos] of the text.
    Scanning stops at the first token it cannot read. *)
Fixpoint scan (fuel : nat) (s : string) (pos : nat) : list Token :=
  match fuel, s with
  | S fuel', String c rest =>
      if isWhiteSpace c then scan fuel' rest (S pos)
      else if (c =? "/")%char then
        match rest with
        | String c' body =>
            if (c' =? "/")%char then
              let n := lineCommentLength body in
              scan fuel' (dropString n body) (pos + 2 + n)
            else if (c' =? "*")%char then
              match blockCommentLength body with
              | Some n => scan fuel' (dropString n body) (pos + 2 + n)
              | None => [token (Unknown UnexpectedEndOfComment) pos 2]
              end
            else [token (Unknown InvalidSymbol) pos 1]
        | EmptyString => [token (Unknown InvalidSymbol) pos 1]
        end
      else if (c =? quote)%char then
        match stringLiteral rest with
        | Some (v, n) =>
            token (StringLiteral v) pos (S n)
            :: scan fuel' (dropString n rest) (pos + 1 + n)
        | None => [token (Unknown UnexpectedEndOfString) pos 1]
        end
      else
        match punctuation c with
        | Some k => token k pos 1 :: scan fuel' rest (S pos)
        | None =>
            if isDigit c || (c =? "-")%char then
              let n := spanLength isNumberPart rest in
              token (NumericLiteral (String c (takeString n rest))) pos (S n)
              :: scan fuel' (dropString n rest) (pos + 1 + n)
            else if isLetter c then
              let n := spanLength isLetter rest in
              token (keyword (String c (takeString n rest))) pos (S n)
              :: scan fuel' (dropString n rest) (pos + 1 + n)
            else [token (Unknown InvalidSymbol) pos 1]
        end
  | _, _ => []
  end.

(** *** The parser: a tree of nodes with their places in the text *)

#[warnings="-register-all"]
Inductive Node : Type :=
| Leaf (v : Json) (off len : nat)
| ArrayNode (children : list Node) (off len : nat)
| ObjectNode (properties : list (string * nat * Node)) (off len : nat).

Definition nodeOffset (n : Node) : nat :=
  match n with
  | Leaf _ off _ => off
  | ArrayNode _ off _ => off
  | ObjectNode _ off _ => off
  end.

Definition nodeLength (n : Node) : nat :=
  match n with
  | Leaf _ _ len => len
  | ArrayNode _ _ len => len
  | ObjectNode _ _ len => len
  end.

Definition nodeEnd (n : Node) : nat := nodeOffset n + nodeLength n.

Fixpoint nodeValue (n : Node) : Json :=
  match n with
  | Leaf v _ _ => v
  | ArrayNode children _ _ => JArray (map nodeValue children)
  | ObjectNode properties _ _ =>
      JObject (map (fun p => (fst (fst p), nodeValue (snd p))) properties)
  end.

Definition tokenEnd (t : Token) : nat := tokenOffset t + tokenLength t.

Definition Parsed (A : Type) : Type := (ParseErrorCode + A * list Token)%type.

Fixpoint parseValue (fuel : nat) (tokens : list Token) : Parsed Node :=
  match fuel, tokens with
  | S fuel', t :: rest =>
      match kind t with
      | NullKeyword => inr (Leaf JNull (tokenOffset t) (tokenLength t), rest)
      | TrueKeyword =>
          inr (Leaf (JBool true) (tokenOffset t) (tokenLength t), rest)
      | FalseKeyword =>
          inr (Leaf (JBool false) (tokenOffset t) (tokenLength t), rest)
      | StringLiteral s =>
          inr (Leaf (JString s) (tokenOffset t) (tokenLength t), rest)
      | NumericLiteral n =>
          inr (Leaf (JNumber n) (tokenOffset t) (tokenLength t), rest)
      | OpenBracketToken =>
          match rest with
          | t' :: rest' =>
              match kind t' with
              | CloseBracketToken =>
                  inr (ArrayNode [] (tokenOffset t)
                         (tokenEnd t' - tokenOffset t), rest')
              | _ =>
                  match parseElements fuel' rest with
                  | inr (children, close, rest'') =>
                      inr (ArrayNode children (tokenOffset t)
                             (close - tokenOffset t), rest'')
                  | inl code => inl code
                  end
              end
          | [] => inl CloseBracketExpected
          end
      | OpenBraceToken =>
          match rest with
          | t' :: rest' =>
              match kind t' with
              | CloseBraceToken =>
                  inr (ObjectNode [] (tokenOffset t)
                         (tokenEnd t' - tokenOffset t), rest')
              | _ =>
                  match parseMembers fuel' rest with
                  | inr (properties, close, rest'') =>
                      inr (ObjectNode properties (tokenOffset t)
                             (close - tokenOffset t), rest'')
                  | inl code => inl code
                  end
              end
          | [] => inl CloseBraceExpected
          end
      | Unknown code => inl code
      | _ => inl ValueExpected
      end
  | _, _ => inl ValueExpected
  end

(** The elements of an array up to its closing bracket, with the
    offset after the bracket. *)
with parseElements (fuel : nat) (tokens : list Token)
  : Parsed (list Node * nat) :=
  match fuel with
  | S fuel' =>
      match parseValue fuel' tokens with
      | inr (child, t :: rest) =>
          match kind t with
          | CommaToken =>
              match parseElements fuel' rest with
              | inr (children, close, rest') =>
                  inr (child :: children, close, rest')
              | inl code => inl code
              end
          | CloseBracketToken => inr ([child], tokenEnd t, rest)
          | Unknown code => inl code
          | _ => inl CommaExpected
          end
      | inr (_, []) => inl CloseBracketExpected
      | inl code => inl code
      end
  | O => inl ValueExpected
  end

(** The properties of an object up to its closing brace. *)
with parseMembers (fuel : nat) (tokens : list Token)
  : Parsed (list (string * nat * Node) * nat) :=
  match fuel, tokens with
  | S fuel', name :: colon :: rest =>
      match kind name, kind colon with
      | StringLiteral n, ColonToken =>
          match parseValue fuel' rest with
          | inr (v, t :: rest') =>
              match kind t with
              | CommaToken =>
                  match parseMembers fuel' rest' with
                  | inr (properties, close, rest'') =>
                      inr ((n, tokenOffset name, v) :: properties, close,
                           rest'')
                  | inl code => inl code
                  end
              | CloseBraceToken =>
                  inr ([(n, tokenOffset name, v)], tokenEnd t, rest')
              | Unknown code => inl code
              | _ => inl CommaExpected
              end
          | inr (_, []) => inl CloseBraceExpected
          | inl code => inl code
          end
      | StringLiteral _, Unknown code => inl code
      | StringLiteral _, _ => inl ColonExpected
      | Unknown code, _ => inl code
      | _, _ => inl PropertyNameExpected
      end
  | S _, [name] =>
      match kind name with
      | StringLiteral _ => inl ColonExpected
      | Unknown code => inl code
      | _ => inl PropertyNameExpected
      end
  | _, _ => inl PropertyNameExpected
  end.

(** [parseTree]: the root node of a text, if it has one, and the
    errors. *)
Definition parseTree (text : string) : option Node * list ParseErrorCode :=
  let tokens := scan (S (String.length text)) text 0 in
  match tokens with
  | [] => (None, [])
  | _ =>
      match parseValue (2 * List.length tokens + 2) tokens with
      | inr (root, []) => (Some root, [])
      | inr (root, t :: _) =>
          (Some root,
           [match kind t with
            | Unknown code => code
            | _ => EndOfFileExpected
            end])
      | inl code => (None, [code])
      end
  end.

(** [json.parse]. *)
Definition parse (text : string) : option Json * list ParseErrorCode :=
  let (root, errors) := parseTree text in
  (option_map nodeValue root, errors).

(** *** The structural editor *)

(** [JSON.stringify] of a string. *)
Fixpoint escaped (s : string) : string :=
  match s with
  | EmptyString => EmptyString
  | String c rest =>
      if (c =? quote)%char || (c =? backslash)%char
      then String backslash (String c (escaped rest))
      else if (c =? lineFeed)%char
           then String backslash (String "n" (escaped rest))
      else if (c =? carriageReturn)%char
           then String backslash (String "r" (escaped rest))
      else if (c =? tab)%char then String backslash (String "t" (escaped rest))
      else String c (escaped rest)
  end.

Definition quoted (s : string) : string :=
  String quote (escaped s ++ String quote EmptyString).

(** [JSON.stringify] of a value, on one line. *)
Fixpoint stringify (v : Json) : string :=
  match v with
  | JNull => "null"
  | JBool true => "true"
  | JBool false => "false"
  | JNumber n => n
  | JString s => quoted s
  | JArray items => "[" ++ String.concat "," (map stringify items) ++ "]"
  | JObject props =>
      "{"
      ++ String.concat ","
           (map (fun p => quoted (fst p) ++ ":" ++ stringify (snd p)) props)
      ++ "}"
  end.

Fixpoint repeatString (n : nat) (s : string) : string :=
  match n with
  | O => EmptyString
  | S n' => s ++ repeatString n' s
  end.

(** One level of indentation. *)
Definition indent (fmt : FormattingOptions) : string :=
  if insertSpaces fmt then repeatString (tabSize fmt) " "
  else String tab EmptyString.

Definition unsupported {A : Type} : Exn A := Throw (HostError 0).

Definition last_error {A : Type} (l : list A) : option A :=
  hd_error (rev l).

Definition findProperty (name : string)
    (properties : list (string * nat * Node)) : option (nat * Node) :=
  match find (fun p => fst (fst p) =? name) properties with
  | Some (_, nameOffset, v) => Some (nameOffset, v)
  | None => None
  end.

(** The place of a property among the properties of its object: what
    is before it, itself, what is after it. *)
Fixpoint splitAtProperty (name : string)
    (before properties : list (string * nat * Node))
  : option (list (string * nat * Node) * (string * nat * Node)
            * list (string * nat * Node)) :=
  match properties with
  | [] => None
  | p :: rest =>
      if fst (fst p) =? name then Some (before, p, rest)
      else splitAtProperty name (before ++ [p]) rest
  end.

(** Removing the element or property spanning [from, to) of a
    sequence, with the comma that separates it from a neighbour. *)
Definition removal (previousEnd : option nat) (nextStart : option nat)
    (from to : nat) : Edit :=
  match nextStart, previousEnd with
  | Some next, _ =>
      {| offset := from; length := next - from; content := "" |}
  | None, Some previous =>
      {| offset := previous; length := to - previous; content := "" |}
  | None, None =>
      {| offset := from; length := to - from; content := "" |}
  end.

Definition setElementProperty (element : Node) (name : string)
    (value : option Json) : Exn (list Edit) :=
  match element with
  | ObjectNode properties off len =>
      match splitAtProperty name [] properties, value with
      | Some (_, (_, _, old), _), Some v =>
          Ok [{| offset := nodeOffset old; length := nodeLength old;
                 content := stringify v |}]
      | Some (before, (_, nameOffset, old), after), None =>
          Ok [removal
                (option_map (fun p => nodeEnd (snd p)) (last_error before))
                (option_map (fun p => snd (fst p)) (hd_error after))
                nameOffset (nodeEnd old)]
      | None, Some v =>
          match last_error properties with
          | Some (_, _, lastValue) =>
              Ok [{| offset := nodeEnd lastValue; length := 0;
                     content := "," ++ quoted name ++ ":" ++ stringify v |}]
          | None =>
              Ok [{| offset := off + 1; length := 0;
                     content := quoted name ++ ":" ++ stringify v |}]
          end
      | None, None => Ok []
      end
  | _ => unsupported
  end.

(** [setProperty(text, path, value, formattingOptions)], for the
    paths the service uses: appending to the array ([[-1]]), an
    element ([[index]], to remove it), a property of an element
    ([[index, name]]). *)
Definition setProperty (text : string) (path : JSONPath)
    (value : option Json) (fmt : FormattingOptions) : Exn (list Edit) :=
  match fst (parseTree text) with
  | Some (ArrayNode children off len) =>
      match path, value with
      | [Index i], Some v =>
          if (i =? -1)%Z then
            match last_error children with
            | Some lastChild =>
                Ok [{| offset := nodeEnd lastChild; length := 0;
                       content := "," ++ eol fmt ++ indent fmt
                                  ++ stringify v |}]
            | None =>
                Ok [{| offset := off + 1; length := 0;
                       content := eol fmt ++ indent fmt ++ stringify v
                                  ++ eol fmt |}]
            end
          else unsupported
      | [Index i], None =>
          if (i <? 0)%Z then unsupported
          else
            let n := Z.to_nat i in
            match nth_error children n with
            | Some child =>
                Ok [removal
                      (match n with
                       | O => None
                       | S m => option_map nodeEnd (nth_error children m)
                       end)
                      (option_map nodeOffset (nth_error children (S n)))
                      (nodeOffset child) (nodeEnd child)]
            | None => unsupported
            end
      | [Index i; Property name], _ =>
          if (i <? 0)%Z then unsupported
          else
            match nth_error children (Z.to_nat i) with
            | Some element => setElementProperty element name value
            | None => unsupported
            end
      | _, _ => unsupported
      end
  | _ => unsupported
  end.

(** Where the [i]-th element of the array is in the text: its offset
    and its length. *)
Definition elementRange (text : string) (i : nat) : option (nat * nat) :=
  match fst (parseTree text) with
  | Some (ArrayNode children _ _) =>
      option_map (fun n => (nodeOffset n, nodeLength n)) (nth_error children i)
  | _ => None
  end.

(** *** The model service and the store *)

(** The line breaks of a text that have a carriage return, and the
    line breaks of the text. *)
Fixpoint lineBreaks (s : string) (afterCR : bool) : nat * nat :=
  match s with
  | EmptyString => (0, 0)
  | String c rest =>
      if (c =? carriageReturn)%char then
        let (withCR, all) := lineBreaks rest true in (S withCR, S all)
      else if (c =? lineFeed)%char then
        if afterCR then lineBreaks rest false
        else let (withCR, all) := lineBreaks rest false in (withCR, S all)
      else lineBreaks rest false
  end.

(** The line terminator of a new model: the one most line breaks of
    the text have, a line feed when it has none. *)
Definition chooseEOL (content : string) : EndOfLine :=
  let (withCR, all) := lineBreaks content false in
  if (all <? 2 * withCR)%nat then CRLF else LF.

(** A store holding one document; a write to a read-only store is
    rejected and leaves the document as it is. *)
Record Disk : Type := {
  file : option string;
  readOnly : bool
}.

Definition diskRead (d : Disk) : Exn (option string) := Ok (file d).

Definition diskWrite (text : string) (d : Disk) : Exn unit * Disk :=
  if readOnly d then (Throw (HostError 1), d)
  else (Ok tt, {| file := Some text; readOnly := false |}).

Definition host : Host :=
  Build_Host parse setProperty
    chooseEOL
    (fun _ => {| optTabSize := 4; optInsertSpaces := true |})
    diskRead diskWrite.

End Reference.

(** ** Notions the properties are stated with *)

(** *** The entry matcher *)

Section EntryMatcher.

Variable K : ContextKeys.

(** A [when] the code's test [!keybinding.when] takes as absent: there
    is none, or it is the empty string. *)
Definition absent (w : option string) : Prop := w = None \/ w = Some "".

(** The whens match: both are absent, or both are present and the
    entry's one canonicalizes to an expression that serializes as the
    target's expression does. *)
Definition whenMatches (keybindingItem : ResolvedKeybindingItem K)
    (keybinding : IUserFriendlyKeybinding) : Prop :=
  (absent (when keybinding) /\ itemWhen keybindingItem = None)
  \/ (exists w expr target,
        when keybinding = Some w /\ w <> ""
        /\ itemWhen keybindingItem = Some target
        /\ deserialize K w = Some expr
        /\ serialize K expr = serialize K target).

Definition entryMatches (keybindingItem : ResolvedKeybindingItem K)
    (keybinding : IUserFriendlyKeybinding) : Prop :=
  itemCommand keybindingItem = Some (command keybinding)
  /\ whenMatches keybindingItem keybinding.

(** The match of the whens in the words of the design: both absent, or
    both present with the same canonical serialization, where a when is
    present as soon as the entry has one, be it the empty string. *)
Definition whenMatchesAsWritten (keybindingItem : ResolvedKeybindingItem K)
    (keybinding : IUserFriendlyKeybinding) : Prop :=
  (when keybinding = None /\ itemWhen keybindingItem = None)
  \/ (exists w expr target,
        when keybinding = Some w
        /\ itemWhen keybindingItem = Some target
        /\ deserialize K w = Some expr
        /\ serialize K expr = serialize K target).

Definition entryMatchesAsWritten (keybindingItem : ResolvedKeybindingItem K)
    (keybinding : IUserFriendlyKeybinding) : Prop :=
  itemCommand keybindingItem = Some (command keybinding)
  /\ whenMatchesAsWritten keybindingItem keybinding.

(** The test of one turn of the loop of
    [findUserKeybindingEntryIndex]. *)
Definition matchesEntry (keybindingItem : ResolvedKeybindingItem K)
    (keybinding : IUserFriendlyKeybinding) : bool :=
  match itemCommand keybindingItem with
  | Some c =>
      (command keybinding =? c)
      && ((negb (truthy_opt (when keybinding))
           && negb (isSome (itemWhen keybindingItem)))
          || match when keybinding, itemWhen keybindingItem with
             | Some w, Some target =>
                 truthy w
                 && match deserialize K w with
                    | Some expr => serialize K expr =? serialize K target
                    | None => false
                    end
             | _, _ => false
             end)
  | None => false
  end.

(** The label of the binding, [null] without a resolved keybinding. *)
Definition resolvedLabel (keybindingItem : ResolvedKeybindingItem K)
  : option string :=
  match resolvedKeybinding keybindingItem with
  | Some rk => getUserSettingsLabel rk
  | None => None
  end.

(** The [when] of the entry [asObject] writes: an empty one is left
    out. *)
Definition writtenWhen (when : option string) : option string :=
  match when with
  | Some w => if truthy w then Some w else None
  | None => None
  end.

(** The negation entry of a binding with label [label] and command
    [c]. *)
Definition negationEntry (keybindingItem : ResolvedKeybindingItem K)
    (label c : string) : IUserFriendlyKeybinding :=
  {| key := label;
     command := "-" ++ c;
     when :=
       writtenWhen (option_map (serialize K) (itemWhen keybindingItem)) |}.

Definition isNegationOf (keybindingItem : ResolvedKeybindingItem K)
    (keybinding : IUserFriendlyKeybinding) : bool :=
  command keybinding =? negated (itemCommand keybindingItem).

End EntryMatcher.

(** *** Edits and texts *)

(** The text an edit leaves: what [applyEditsToBuffer] does to the text
    of the model. *)
Definition patched (edit : Edit) (text : string) : string :=
  let s := Nat.min (offset edit) (String.length text) in
  let e := Nat.min (offset edit + length edit) (String.length text) in
  takeString s text ++ content edit ++ dropString e text.

(** The [n] characters of [text] from offset [a] on. *)
Definition slice (a n : nat) (text : string) : string :=
  takeString n (dropString a text).

(** A list without its element at [index]. *)
Definition removeAt {A : Type} (index : Z) (l : list A) : list A :=
  if (index <? 0)%Z then l
  else (firstn (Z.to_nat index) l ++ skipn (S (Z.to_nat index)) l)%list.

(** Modelled from the spec: [setProperty] is outside this file; the
    design asks of its edit for an element that it touches no text
    outside the element.  An edit that stays inside the [len]
    characters from [start] on. *)
Definition inside (edit : Edit) (start len : nat) : Prop :=
  start <= offset edit /\ offset edit + length edit <= start + len.

(** The same edit on the text that begins at [start]. *)
Definition relocated (start : nat) (edit : Edit) : Edit :=
  {| offset := offset edit - start;
     length := length edit;
     content := content edit |}.

(** A span of text after the edit on the key and the edit, if there is
    one, on the when. *)
Definition editedSpan (start : nat) (e1 : Edit) (edits2 : list Edit)
    (span : string) : string :=
  match edits2 with
  | e2 :: _ => patched (relocated start e2) (patched (relocated start e1) span)
  | [] => patched (relocated start e1) span
  end.

(** *** The contract of the structural editor

    Modelled from the spec: [setProperty] of vs/base/common/jsonEdit is
    outside this file.  The design asks of it that appending to the
    array yields a text with the same elements followed by the new one,
    that removing an element yields a text with the same elements
    without that one, that setting a property of an element changes
    that property alone, and that an edit never touches the text
    outside the element it is about ([inside], above).  The editor
    being a parameter, the properties of the service that rest on it
    are stated for the calls in which the editor keeps this
    contract. *)

Section EditorContract.

Variable H : Host.

(** The elements of the array a text parses to. *)
Definition arrayOf (text : string) : option (list Json) :=
  match fst (json_parse H text) with
  | Some (JArray items) => Some items
  | _ => None
  end.

Definition appendsElement (text : string) (v : Json) (fmt : FormattingOptions)
  : Prop :=
  match arrayOf text, setProperty H text [Index (-1)] (Some v) fmt with
  | Some items, Ok (edit :: _) =>
      arrayOf (patched edit text) = Some (items ++ [v])%list
  | _, _ => False
  end.

Definition removesElement (text : string) (index : Z) (fmt : FormattingOptions)
  : Prop :=
  match arrayOf text, setProperty H text [Index index] None fmt with
  | Some items, Ok (edit :: _) =>
      arrayOf (patched edit text) = Some (removeAt index items)
  | _, _ => False
  end.

(** The removals of a loop, each on the text the one before it left. *)
Fixpoint removesElements (indices : list Z) (fmt : FormattingOptions)
    (text : string) : Prop :=
  match indices with
  | [] => True
  | index :: rest =>
      removesElement text index fmt
      /\ match setProperty H text [Index index] None fmt with
         | Ok (edit :: _) => removesElements rest fmt (patched edit text)
         | _ => True
         end
  end.

End EditorContract.

(** *** Tokens and nodes in the text *)

(** Tokens one after the other between two offsets. *)
Fixpoint chained (lo hi : nat) (tokens : list Reference.Token) : Prop :=
  match tokens with
  | [] => True
  | t :: rest =>
      lo <= Reference.tokenOffset t /\ Reference.tokenEnd t <= hi
      /\ chained (Reference.tokenEnd t) hi rest
  end.

(** Nodes one after the other between two offsets. *)
Fixpoint apart (lo hi : nat) (nodes : list Reference.Node) : Prop :=
  match nodes with
  | [] => True
  | n :: rest =>
      lo <= Reference.nodeOffset n /\ Reference.nodeEnd n <= hi
      /\ apart (Reference.nodeEnd n) hi rest
  end.

(** The elements of an array node lie inside it, one after the
    other. *)
Definition rootApart (node : Reference.Node) : Prop :=
  match node with
  | Reference.ArrayNode children off len => apart off (off + len) children
  | _ => True
  end.

(** *** The queue at rest *)

Section QueueAtRest.

Variable H : Host.

(** The world after the model has been resolved. *)
Definition resolved (w : World H) : World H :=
  record (DidModel Created) (record DidRead w).

(** What the service comes to when the event loop is left to turn: the
    running task is run to its end, then the factories not called yet,
    in their order. *)
Definition finish (s : Service H) : World H * list (Exn unit) :=
  match running (snd s) with
  | Some t =>
      let (w', r) := run t (fst s) in
      oneAtATime (outstanding (snd s)) w' (settled (snd s) ++ [r])
  | None => oneAtATime (outstanding (snd s)) (fst s) (settled (snd s))
  end.

Fixpoint awaitsOf (tasks : list (Task unit)) (w : World H) : nat :=
  match tasks with
  | [] => 0
  | t :: rest => awaits t w + awaitsOf rest (fst (run t w))
  end.

(** The turns of the event loop the service still needs. *)
Definition awaitsLeft (s : Service H) : nat :=
  match running (snd s) with
  | Some t =>
      awaits t (fst s) + awaitsOf (outstanding (snd s)) (fst (run t (fst s)))
  | None => awaitsOf (outstanding (snd s)) (fst s)
  end.

Definition suspended {A : Type} (t : Task A) : bool :=
  match t with
  | AwaitRead _ => true
  | AwaitWrite _ _ => true
  | _ => false
  end.

(** The worker waits for a suspended task, or there is nothing left to
    call. *)
Definition steady (s : Service H) : Prop :=
  match running (snd s) with
  | Some t => suspended t = true
  | None => outstanding (snd s) = []
  end.

End QueueAtRest.

(** *** Entries and bindings the matcher cannot tell apart *)

Section Indistinguishable.

Variable K : ContextKeys.

(** The canonical text of a when, if it has one: the serialization of
    the expression it deserializes to. *)
Definition canonicalWhen (w : option string) : option string :=
  match w with
  | Some s =>
      if truthy s then option_map (serialize K) (deserialize K s) else None
  | None => None
  end.

(** Two entries with the same command whose whens are both absent, or
    both present with the same canonical text (or both without one).
    Their keys may differ. *)
Definition sameEntry (a b : IUserFriendlyKeybinding) : Prop :=
  command a = command b
  /\ truthy_opt (when a) = truthy_opt (when b)
  /\ canonicalWhen (when a) = canonicalWhen (when b).

(** Two bindings with the same command whose whens are both null, or
    serialize to the same text.  Their labels and origins may
    differ. *)
Definition sameBinding (a b : ResolvedKeybindingItem K) : Prop :=
  itemCommand a = itemCommand b
  /\ option_map (serialize K) (itemWhen a)
     = option_map (serialize K) (itemWhen b).

End Indistinguishable.

(** A list with [x] in the place of its element at [index]. *)
Definition replaceAt {A : Type} (index : Z) (x : A) (l : list A) : list A :=
  if (index <? 0)%Z then l
  else
    match skipn (Z.to_nat index) l with
    | [] => l
    | _ :: rest => (firstn (Z.to_nat index) l ++ x :: rest)%list
    end.

Section PropertyContract.

Variable H : Host.

(** The contract of the structural editor for setting a property of an
    element, for one call on one text: the edit makes the text parse to
    the same elements, the one at [index] being an object in which the
    property has the new value (or is gone, for no value) and every
    other property is as it was.  The editor may return no edit only
    when asked to remove a property the object does not have. *)
Definition setsProperty (text : string) (index : Z) (name : string)
    (value : option Json) (fmt : FormattingOptions) : Prop :=
  match arrayOf H text,
        setProperty H text [Index index; Property name] value fmt with
  | Some items, Ok (edit :: _) =>
      exists props props',
        (0 <= index)%Z
        /\ nth_error items (Z.to_nat index) = Some (JObject props)
        /\ arrayOf H (patched edit text)
           = Some (replaceAt index (JObject props') items)
        /\ lookupProperty name props' = value
        /\ forall other, other <> name ->
             lookupProperty other props' = lookupProperty other props
  | Some items, Ok [] =>
      value = None
      /\ exists props,
           (0 <= index)%Z
           /\ nth_error items (Z.to_nat index) = Some (JObject props)
           /\ lookupProperty name props = None
  | _, _ => False
  end.

End PropertyContract.

(** ** Documents and bindings to run the service on *)

Module Examples.

Import Reference.

Definition world (d : Disk) : World host := @Build_World host d [].

Definition emptyDisk : Disk := {| file := None; readOnly := false |}.

Definition disk (text : string) : Disk :=
  {| file := Some text; readOnly := false |}.

Definition readOnlyDisk (text : string) : Disk :=
  {| file := Some text; readOnly := true |}.

Definition binding (isDefault : bool) (command : string)
    (when : option (list string)) (label : option string)
  : ResolvedKeybindingItem contextKeys :=
  @Build_ResolvedKeybindingItem contextKeys
    (option_map (fun l => {| getUserSettingsLabel := Some l |}) label)
    (Some command) when isDefault.

(** Two user entries for the same command, told apart by their when. *)
Definition twoWhens : string :=
  json "[{'key':'a','command':'c','when':'x'},{'key':'b','command':'c'}]".

(** A user entry among negation entries of its command. *)
Definition shadowed : string :=
  json ("[{'key':'a','command':'-c','when':'x'},{'key':'b','command':'c'},"
        ++ "{'key':'z','command':'-c'},{'key':'y','command':'d'}]").

(** The same two entries, the one with the when last. *)
Definition otherWhenLast : string :=
  json "[{'key':'b','command':'c'},{'key':'a','command':'c','when':'x'}]".

(** One user entry. *)
Definition oneEntry : string := json "[{'key':'a','command':'c'}]".

(** The user binding of command c without a when. *)
Definition userC : ResolvedKeybindingItem contextKeys :=
  binding false "c" None (Some "a").

(** The default binding of command c under x, bound to ctrl+x. *)
Definition defaultC : ResolvedKeybindingItem contextKeys :=
  binding true "c" (Some ["x"]) (Some "ctrl+x").

(** The default binding of command c without a when, bound to ctrl+x. *)
Definition defaultPlainC : ResolvedKeybindingItem contextKeys :=
  binding true "c" None (Some "ctrl+x").

(** A default binding of command c whose label is empty. *)
Definition emptyLabelC : ResolvedKeybindingItem contextKeys :=
  binding true "c" None (Some "").

(** A default binding bound to ctrl+x whose command is null. *)
Definition nullCommand : ResolvedKeybindingItem contextKeys :=
  @Build_ResolvedKeybindingItem contextKeys
    (Some {| getUserSettingsLabel := Some "ctrl+x" |}) None None true.

(** A default binding bound to ctrl+x whose command is empty. *)
Definition emptyCommand : ResolvedKeybindingItem contextKeys :=
  binding true "" None (Some "ctrl+x").

(** A default binding of command c that has no keybinding. *)
Definition unboundC : ResolvedKeybindingItem contextKeys :=
  binding true "c" None None.

(** A canonicalizer that, unlike the reference one, has no expression
    for a conjunction with an empty conjunct. *)
Definition strictKeys : ContextKeys :=
  Build_ContextKeys
    (fun serialized =>
       let keys := map trim (splitAnd serialized "") in
       if existsb (fun k => k =? "") keys then None else Some (sortKeys keys))
    serialize.

(** The default binding of command c under x, for that canonicalizer. *)
Definition strictC : ResolvedKeybindingItem strictKeys :=
  @Build_ResolvedKeybindingItem strictKeys
    (Some {| getUserSettingsLabel := Some "ctrl+x" |}) (Some "c")
    (Some ["x"]) true.

(** Entries whose first when has no expression there. *)
Definition brokenWhen : list IUserFriendlyKeybinding :=
  [{| key := "a"; command := "c"; when := Some "x && " |};
   {| key := "b"; command := "c"; when := Some "x" |}].

(** A binding whose when serializes to the text of that first when. *)
Definition oddC : ResolvedKeybindingItem strictKeys :=
  @Build_ResolvedKeybindingItem strictKeys
    (Some {| getUserSettingsLabel := Some "ctrl+x" |}) (Some "c")
    (Some ["x"; ""]) true.

(** Two entries of command c, the first with an empty when. *)
Definition emptyWhenFirst : list IUserFriendlyKeybinding :=
  [{| key := "a"; command := "c"; when := Some "" |};
   {| key := "b"; command := "c"; when := None |}].

(** An entry of command c with an empty when, alone. *)
Definition emptyWhenAlone : list IUserFriendlyKeybinding :=
  [{| key := "a"; command := "c"; when := Some "" |}].

(** The entries of the documents. *)
Definition twoWhensEntries : list IUserFriendlyKeybinding :=
  [{| key := "a"; command := "c"; when := Some "x" |};
   {| key := "b"; command := "c"; when := None |}].

Definition shadowedEntries : list IUserFriendlyKeybinding :=
  [{| key := "a"; command := "-c"; when := Some "x" |};
   {| key := "b"; command := "c"; when := None |};
   {| key := "z"; command := "-c"; when := None |};
   {| key := "y"; command := "d"; when := None |}].

Definition oneEntryEntries : list IUserFriendlyKeybinding :=
  [{| key := "a"; command := "c"; when := None |}].

(** The edit of the reference editor that sets the key of the entry of
    [oneEntry] to b. *)
Definition keyEdit : Edit :=
  {| offset := 8; length := 3; content := json "'b'" |}.

(** The models the model service creates for the documents. *)
Definition oneEntryModel : ITextModel := createModel host oneEntry.

Definition twoWhensModel : ITextModel := createModel host twoWhens.

Definition shadowedModel : ITextModel := createModel host shadowed.

Definition nullModel : ITextModel := createModel host "null".

(** A world whose store rejects writes. *)
Definition readOnlyWorld : World host := world (readOnlyDisk twoWhens).

(** Three user entries, the one in the middle under a when; the user
    binding of that entry; the edits that set its key to z and its when
    to y. *)
Definition threeEntries : string :=
  json ("[{'key':'a','command':'c'},{'key':'b','command':'d','when':'x'},"
        ++ "{'key':'e','command':'f'}]").

Definition threeEntriesModel : ITextModel := createModel host threeEntries.

Definition threeEntriesEntries : list IUserFriendlyKeybinding :=
  [{| key := "a"; command := "c"; when := None |};
   {| key := "b"; command := "d"; when := Some "x" |};
   {| key := "e"; command := "f"; when := None |}].

Definition userDX : ResolvedKeybindingItem contextKeys :=
  binding false "d" (Some ["x"]) None.

Definition middleKeyEdit : Edit :=
  {| offset := 34; length := 3; content := json "'z'" |}.

Definition middleWhenEdits : list Edit :=
  [{| offset := 59; length := 3; content := json "'y'" |}].

(** A document with no entry, and its model. *)
Definition noEntry : string := "[]".

Definition noEntryModel : ITextModel := createModel host noEntry.

(** The document of one entry on three lines, the second ending with
    a line feed, the others with a carriage return and a line feed. *)
Definition mixedEnds : string :=
  "[" ++ eolText CRLF ++ json "{'key':'a','command':'c'}" ++ eolText LF
  ++ "]" ++ eolText CRLF.

(** A text that does not parse. *)
Definition brokenText : string := "{".

(** The user binding of command d, which has no entry in the
    documents. *)
Definition userD : ResolvedKeybindingItem contextKeys :=
  binding false "d" None None.

(** The default binding of command bar under editorFocus, bound to
    ctrl+o. *)
Definition defaultBar : ResolvedKeybindingItem contextKeys :=
  binding true "bar" (Some ["editorFocus"]) (Some "ctrl+o").

(** The same command under the same two context keys, as a default
    binding and as a user binding, and as entries that write the when
    in two ways and differ in their key. *)
Definition defaultAB : ResolvedKeybindingItem contextKeys :=
  binding true "c" (Some ["a"; "b"]) (Some "ctrl+x").

Definition userAB : ResolvedKeybindingItem contextKeys :=
  binding false "c" (Some ["a"; "b"]) None.

Definition entriesAB : list IUserFriendlyKeybinding :=
  [{| key := "k"; command := "d"; when := None |};
   {| key := "a"; command := "c"; when := Some "a && b" |}].

Definition entriesBA : list IUserFriendlyKeybinding :=
  [{| key := "l"; command := "d"; when := Some "" |};
   {| key := "z"; command := "c"; when := Some "b&&a" |}].

End Examples.

(** * Properties *)

Unset Implicit Arguments.

(** ** Strings and edits *)

Lemma truthy_true (s : string) : truthy s = true <-> s <> "".
Proof.
  unfold truthy. rewrite negb_true_iff. apply String.eqb_neq.
Qed.

Lemma truthy_false (s : string) : truthy s = false <-> s = "".
Proof.
  unfold truthy. rewrite negb_false_iff. apply String.eqb_eq.
Qed.

Lemma append_empty (s : string) : s ++ "" = s.
Proof. induction s; simpl; congruence. Qed.

Lemma append_assoc (a b c : string) : (a ++ b) ++ c = a ++ (b ++ c).
Proof. induction a; simpl; congruence. Qed.

Lemma length_append (a b : string) :
  String.length (a ++ b) = String.length a + String.length b.
Proof. induction a; simpl; congruence. Qed.

Lemma takeString_all (s : string) : takeString (String.length s) s = s.
Proof. induction s; simpl; congruence. Qed.

Lemma dropString_all (s : string) : dropString (String.length s) s = "".
Proof. induction s; simpl; congruence. Qed.

Lemma take_drop (n : nat) (s : string) : takeString n s ++ dropString n s = s.
Proof.
  revert s. induction n; intros [|c s]; simpl; try reflexivity.
  now rewrite IHn.
Qed.

Lemma takeString_empty_iff (n : nat) (s : string) :
  takeString n s = "" <-> n = 0 \/ s = "".
Proof.
  destruct n, s; simpl; split; intros E; auto; try discriminate.
  destruct E; discriminate.
Qed.

Lemma length_takeString (n : nat) (s : string) :
  String.length (takeString n s) = Nat.min n (String.length s).
Proof.
  revert s. induction n; intros [|c s]; simpl; auto.
Qed.

Lemma length_dropString (n : nat) (s : string) :
  String.length (dropString n s) = String.length s - n.
Proof.
  revert s. induction n; intros [|c s]; simpl; auto.
Qed.

Lemma dropString_beyond (n : nat) (s : string) :
  String.length s <= n -> dropString n s = "".
Proof.
  revert s. induction n; intros [|c s]; simpl; intros L; auto; try lia.
  apply IHn. lia.
Qed.

Lemma dropString_add (a b : nat) (s : string) :
  dropString (a + b) s = dropString b (dropString a s).
Proof.
  revert s. induction a; intros [|c s]; simpl; try reflexivity.
  - now destruct b.
  - apply IHa.
Qed.

Lemma takeString_append (p s : string) (k : nat) :
  takeString (String.length p + k) (p ++ s) = p ++ takeString k s.
Proof.
  induction p; simpl; [reflexivity | congruence].
Qed.

Lemma takeString_append_le (m s : string) (k : nat) :
  k <= String.length m -> takeString k (m ++ s) = takeString k m.
Proof.
  revert k. induction m; intros [|k] L; simpl in *; try reflexivity; try lia.
  f_equal. apply IHm. lia.
Qed.

Lemma dropString_append (p s : string) (k : nat) :
  dropString (String.length p + k) (p ++ s) = dropString k s.
Proof.
  induction p; simpl; [reflexivity | assumption].
Qed.

Lemma dropString_append_le (m s : string) (k : nat) :
  k <= String.length m -> dropString k (m ++ s) = dropString k m ++ s.
Proof.
  revert k. induction m; intros [|k] L; simpl in *; try reflexivity; try lia.
  apply IHm. lia.
Qed.

(** A text is what is before a span, the span, and what is after it. *)
Lemma text_around_span (start len : nat) (text : string) :
  start + len <= String.length text ->
  text = takeString start text ++ slice start len text
         ++ dropString (start + len) text
  /\ String.length (takeString start text) = start
  /\ String.length (slice start len text) = len.
Proof.
  intros L. unfold slice. repeat split.
  - rewrite dropString_add, take_drop, take_drop. reflexivity.
  - rewrite length_takeString. lia.
  - rewrite length_takeString, length_dropString. lia.
Qed.

Lemma slice_before (p x y : string) (a n : nat) :
  a + n <= String.length p ->
  slice a n (p ++ x) = slice a n (p ++ y).
Proof.
  intros L. unfold slice.
  rewrite !dropString_append_le by lia.
  rewrite !takeString_append_le by (rewrite length_dropString; lia).
  reflexivity.
Qed.

Lemma slice_after (p m m' s : string) (a n : nat) :
  String.length p + String.length m <= a ->
  slice (a + String.length m' - String.length m) n (p ++ m' ++ s)
  = slice a n (p ++ m ++ s).
Proof.
  intros L. unfold slice.
  set (k := a - (String.length p + String.length m)).
  replace a with (String.length p + (String.length m + k)) by (subst k; lia).
  replace (String.length p + (String.length m + k) + String.length m'
           - String.length m)
    with (String.length p + (String.length m' + k)) by lia.
  now rewrite !dropString_append.
Qed.

(** [applyEditsToBuffer] replaces the characters of the edit, whether
    it pushes a replacement or an insertion. *)
Lemma applyEditsToBuffer_patched (edit : Edit) (model : ITextModel) :
  applyEditsToBuffer (Some edit) model
  = Ok (setValue model (patched edit (getValue model))).
Proof.
  unfold applyEditsToBuffer, patched, pushEditOperations, getPositionAt.
  simpl.
  set (text := getValue model).
  set (s := Nat.min (offset edit) (String.length text)).
  set (e := Nat.min (offset edit + length edit) (String.length text)).
  assert (s <= e) by (subst s e; lia).
  destruct (truthy _) eqn:T; simpl; fold text; [reflexivity|].
  apply truthy_false in T.
  unfold getValueInRange in T. simpl in T. fold text in T.
  apply takeString_empty_iff in T. destruct T as [T | T].
  - assert (E : e = s) by lia. now rewrite E.
  - assert (L := length_dropString s text). rewrite T in L. simpl in L.
    rewrite T, (dropString_beyond e text) by lia. reflexivity.
Qed.

(** An edit inside the middle of a text changes the middle, as it would
    on the middle alone, and leaves what is before and after it. *)
Lemma patched_inside (edit : Edit) (p m s : string) :
  inside edit (String.length p) (String.length m) ->
  patched edit (p ++ m ++ s)
  = p ++ patched (relocated (String.length p) edit) m ++ s
  /\ String.length (patched (relocated (String.length p) edit) m)
     + length edit
     = String.length m + String.length (content edit).
Proof.
  intros [L1 L2].
  set (a := offset edit - String.length p).
  assert (Ea : offset edit = String.length p + a) by (subst a; lia).
  assert (P : patched (relocated (String.length p) edit) m
              = takeString a m ++ content edit
                ++ dropString (a + length edit) m).
  { unfold patched, relocated. simpl. fold a.
    now rewrite !Nat.min_l by lia. }
  rewrite P. split.
  - unfold patched. rewrite !length_append.
    rewrite !Nat.min_l by lia.
    rewrite Ea, <- Nat.add_assoc.
    rewrite takeString_append, dropString_append.
    rewrite takeString_append_le, dropString_append_le by lia.
    now rewrite !append_assoc.
  - rewrite !length_append, length_takeString, length_dropString. lia.
Qed.

(** ** The entry matcher *)

Section Matcher.

Variable K : ContextKeys.

Implicit Types (item : ResolvedKeybindingItem K)
  (kb : IUserFriendlyKeybinding).

Lemma find_step item kb rest index :
  findUserKeybindingEntryIndexFrom item (kb :: rest) index
  = if matchesEntry item kb then index
    else findUserKeybindingEntryIndexFrom item rest (index + 1)%Z.
Proof.
  unfold matchesEntry. simpl.
  destruct (itemCommand item) as [c|]; [|reflexivity].
  destruct (command kb =? c); [|reflexivity]. simpl.
  destruct (when kb) as [w|], (itemWhen item) as [t|]; simpl;
    try reflexivity.
  - destruct (truthy w); simpl; [|reflexivity].
    destruct (deserialize K w) as [e|]; [|reflexivity].
    destruct (serialize K e =? serialize K t); reflexivity.
  - destruct (truthy w); reflexivity.
Qed.

Lemma matchesEntry_spec item kb :
  matchesEntry item kb = true <-> entryMatches item kb.
Proof.
  unfold matchesEntry, entryMatches, whenMatches, absent.
  destruct (itemCommand item) as [c|].
  2:{ split; [discriminate | intros [E _]; discriminate]. }
  rewrite andb_true_iff, orb_true_iff, andb_true_iff, String.eqb_eq.
  split.
  - intros [Hc Hw]. subst c. split; [reflexivity|].
    destruct Hw as [[Ha Hb] | Hw].
    + left. split.
      * destruct (when kb) as [w|]; [|now left]. right. f_equal.
        simpl in Ha. apply negb_true_iff in Ha. now apply truthy_false.
      * destruct (itemWhen item); [discriminate | reflexivity].
    + right. destruct (when kb) as [w|]; [|discriminate].
      destruct (itemWhen item) as [t|]; [|discriminate].
      apply andb_true_iff in Hw. destruct Hw as [Hw He].
      destruct (deserialize K w) as [e|] eqn:D; [|discriminate].
      exists w, e, t.
      split; [reflexivity|]. split; [now apply truthy_true|].
      split; [reflexivity|]. split; [exact D | now apply String.eqb_eq].
  - intros [Hc Hw]. injection Hc as ->. split; [reflexivity|].
    destruct Hw as [[Ha Hb] | (w & e & t & Hw & Hne & Ht & Hd & Hs)].
    + left. rewrite Hb. split; [|reflexivity].
      destruct Ha as [-> | ->]; reflexivity.
    + right. rewrite Hw, Ht, Hd. apply andb_true_iff. split.
      * now apply truthy_true.
      * now apply String.eqb_eq.
Qed.

Lemma findFrom_spec item entries : forall index,
  (findUserKeybindingEntryIndexFrom item entries index = (-1)%Z
   /\ Forall (fun kb => ~ entryMatches item kb) entries)
  \/ (exists i kb,
        findUserKeybindingEntryIndexFrom item entries index
        = (index + Z.of_nat i)%Z
        /\ nth_error entries i = Some kb
        /\ entryMatches item kb
        /\ forall j kb', j < i -> nth_error entries j = Some kb' ->
                         ~ entryMatches item kb').
Proof.
  induction entries as [|kb rest IH]; intros index.
  - left. split; [reflexivity | constructor].
  - rewrite find_step.
    destruct (matchesEntry item kb) eqn:M.
    + right. exists 0, kb. apply matchesEntry_spec in M.
      split; [lia|]. split; [reflexivity|]. split; [exact M|].
      intros j kb' Hj. lia.
    + assert (N : ~ entryMatches item kb).
      { intro E. apply matchesEntry_spec in E. congruence. }
      destruct (IH (index + 1)%Z) as [[E F] | (i & kb' & E & Hn & Hm & Hl)].
      * left. split; [exact E | now constructor].
      * right. exists (S i), kb'.
        split; [lia|]. split; [exact Hn|]. split; [exact Hm|].
        intros [|j] kb'' Hj Hnth; simpl in Hnth.
        -- now injection Hnth as <-.
        -- apply (Hl j); [lia | exact Hnth].
Qed.

(** C2, as the code has it.  The entry matcher returns the index of the
    first entry, in the order of the list, whose command is the
    target's command and whose when matches the target's when: both are
    absent, the when of an entry being absent when the entry has none
    or has the empty string (the code tests [!keybinding.when]), or
    both are present and the entry's when canonicalizes to an
    expression that serializes to the same string as the target's.  It
    returns -1 when no entry matches.  Entries after the first match
    play no part. *)
Theorem findUserKeybindingEntryIndex_first_match item entries :
  (findUserKeybindingEntryIndex item entries = (-1)%Z
   /\ Forall (fun kb => ~ entryMatches item kb) entries)
  \/ (exists i kb,
        findUserKeybindingEntryIndex item entries = Z.of_nat i
        /\ nth_error entries i = Some kb
        /\ entryMatches item kb
        /\ forall j kb', j < i -> nth_error entries j = Some kb' ->
                         ~ entryMatches item kb').
Proof.
  exact (findFrom_spec item entries 0%Z).
Qed.

(** C10, as the code has it.  The entry matcher never returns the index
    of an entry whose when is a string that is not empty and does not
    deserialize into a context-key expression, whatever the text of
    that when, be it the very text the target's when serializes to:
    such an entry is passed over.  (An entry whose when is the empty
    string is taken as an entry without a when.) *)
Theorem undeserializable_when_never_found item entries i kb w :
  nth_error entries i = Some kb ->
  when kb = Some w ->
  w <> "" ->
  deserialize K w = None ->
  findUserKeybindingEntryIndex item entries <> Z.of_nat i.
Proof.
  intros Hn Hw Hne Hd E.
  destruct (findFrom_spec item entries 0%Z)
    as [[R _] | (j & kb' & R & Hn' & [_ Hm] & _)];
    fold (findUserKeybindingEntryIndex item entries) in R.
  - lia.
  - assert (j = i) by lia. subst j. rewrite Hn in Hn'. injection Hn' as <-.
    destruct Hm as [[[A | A] _] | (w' & e & t & Hw' & _ & _ & Hd' & _)];
      congruence.
Qed.

End Matcher.

(** ** Validation *)

Section Validation.

Variable H : Host.

Lemma validate_unfold (model : ITextModel) :
  validate H model
  = if truthy (getValue model) then
      if (0 <? List.length (snd (parse H model)))%nat then Throw parseErrors
      else if truthy_json (fst (parse H model)) then
        if negb (isArray (fst (parse H model)))
        then Throw errorInvalidConfiguration
        else Ok model
      else Ok (setValue model (getValue model ++ getEOL model ++ "[]"))
    else Ok (setValue model (getEmptyContent (getEOL model))).
Proof.
  unfold validate.
  destruct (truthy (getValue model)) eqn:T.
  - destruct (0 <? _)%nat; [reflexivity|].
    destruct (truthy_json _); [reflexivity|].
    rewrite applyEditsToBuffer_patched. unfold patched. simpl.
    rewrite Nat.min_id, Nat.min_r by lia.
    now rewrite takeString_all, dropString_all, append_empty.
  - rewrite applyEditsToBuffer_patched. unfold patched. simpl.
    apply truthy_false in T. rewrite T. simpl.
    now rewrite append_empty.
Qed.

Lemma no_errors {A : Type} (l : list A) :
  (0 <? List.length l)%nat = false <-> l = [].
Proof.
  destruct l; simpl; split; intros; try reflexivity; discriminate.
Qed.

(** The outcomes of the validation of a model, branch by branch. *)
Lemma validate_cases (model : ITextModel) :
  (validate H model = Throw parseErrors
   <-> getValue model <> "" /\ snd (parse H model) <> [])
  /\ (validate H model = Throw errorInvalidConfiguration
      <-> getValue model <> "" /\ snd (parse H model) = []
          /\ truthy_json (fst (parse H model)) = true
          /\ isArray (fst (parse H model)) = false)
  /\ (forall e, validate H model = Throw e ->
                e = parseErrors \/ e = errorInvalidConfiguration)
  /\ (getValue model <> "" -> snd (parse H model) = [] ->
      isArray (fst (parse H model)) = true ->
      validate H model = Ok model)
  /\ (getValue model <> "" -> snd (parse H model) = [] ->
      truthy_json (fst (parse H model)) = false ->
      validate H model
      = Ok (setValue model (getValue model ++ getEOL model ++ "[]")))
  /\ (getValue model = "" ->
      validate H model = Ok (setValue model (getEmptyContent (getEOL model)))).
Proof.
  rewrite validate_unfold.
  set (text := getValue model).
  set (value := fst (parse H model)).
  set (errors := snd (parse H model)).
  destruct (truthy text) eqn:T.
  - apply truthy_true in T.
    destruct (0 <? List.length errors)%nat eqn:E.
    + assert (errors <> []) by (intro N; rewrite N in E; discriminate).
      repeat split; try tauto; try discriminate; try congruence.
      intros e [= <-]. now left.
    + apply no_errors in E.
      destruct (truthy_json value) eqn:V.
      * destruct (isArray value) eqn:A; simpl.
        -- repeat split; try tauto; try discriminate; try congruence.
           intros (_ & _ & _ & N). discriminate.
        -- repeat split; try tauto; try discriminate; try congruence.
           intros e [= <-]. now right.
      * assert (isArray value = false).
        { destruct value as [[]|]; simpl in *; congruence. }
        repeat split; try tauto; try discriminate; try congruence.
        intros (_ & _ & N & _). discriminate.
  - apply truthy_false in T.
    repeat split; try tauto; try discriminate; try congruence.
Qed.

End Validation.

(** ** The cycle of a request *)

Section Cycles.

Variable K : ContextKeys.
Variable H : Host.

Lemma run_andThen {A B : Type} (t : Task A) (f : A -> Task B) :
  forall w : World H,
  run (andThen t f) w
  = match run t w with
    | (w', Ok a) => run (f a) w'
    | (w', Throw e) => (w', Throw e)
    end.
Proof.
  induction t as [a | e | k IH | text k IH | ev k IH]; intros w; simpl.
  - reflexivity.
  - reflexivity.
  - destruct (doRead w) as [w' r]. apply IH.
  - destruct (doWrite text w) as [w' r]. apply IH.
  - apply IH.
Qed.

Lemma run_settle {A : Type} (m : Exn A) (w : World H) :
  run (settle m) w = (w, m).
Proof. destruct m; reflexivity. Qed.

Lemma run_resolveAndValidate (w : World H) :
  run (resolveAndValidate H) w
  = match read H (store w) with
    | Ok stored => (resolved w, validate H (createModel H (orElse stored "[]")))
    | Throw e => (record DidRead w, Throw e)
    end.
Proof.
  unfold resolveAndValidate. rewrite run_andThen. simpl.
  destruct (read H (store w)) as [stored | e]; simpl; [|reflexivity].
  apply run_settle.
Qed.

Lemma cycle_unfold (r : Request K) :
  cycle H r
  = andThen (resolveAndValidate H) (fun model =>
      andThen (settle (patches H r model)) (fun model' => save model')).
Proof. destruct r; reflexivity. Qed.

Lemma run_save (model : ITextModel) (w : World H) :
  run (save model) w
  = match write H (getValue model) (store w) with
    | (Ok _, s) =>
        ({| store := s;
            log := log w ++ [DidWrite (getValue model); DidModel Disposed;
                             DidModel Destroyed] |}, Ok tt)
    | (Throw e, s) =>
        ({| store := s; log := log w ++ [DidWrite (getValue model)] |}, Throw e)
    end.
Proof.
  unfold save. simpl. unfold doWrite.
  destruct (write H (getValue model) (store w)) as [[u | e] s]; simpl.
  - unfold record. simpl. rewrite <- !app_assoc. reflexivity.
  - reflexivity.
Qed.

Lemma run_cycle (r : Request K) (w : World H) :
  run (cycle H r) w
  = match read H (store w) with
    | Throw e => (record DidRead w, Throw e)
    | Ok stored =>
        match validate H (createModel H (orElse stored "[]")) with
        | Throw e => (resolved w, Throw e)
        | Ok model =>
            match patches H r model with
            | Throw e => (resolved w, Throw e)
            | Ok model' => run (save model') (resolved w)
            end
        end
    end.
Proof.
  rewrite cycle_unfold, run_andThen, run_resolveAndValidate.
  destruct (read H (store w)) as [stored | e]; [|reflexivity].
  destruct (validate H _) as [model | e]; [|reflexivity].
  rewrite run_andThen, run_settle.
  destruct (patches H r model); reflexivity.
Qed.

(** The cycle of a request whose document [resolveAndValidate]
    accepts: the patches of the request, then one write of the text of
    the patched model. *)
Lemma cycle_of_validated (r : Request K) (w : World H) (model : ITextModel) :
  snd (run (resolveAndValidate H) w) = Ok model ->
  run (cycle H r) w
  = match patches H r model with
    | Throw e => (resolved w, Throw e)
    | Ok model' => run (save model') (resolved w)
    end.
Proof.
  rewrite run_cycle, run_resolveAndValidate.
  destruct (read H (store w)) as [stored | e]; [|discriminate].
  cbn [snd]. now intros ->.
Qed.

Lemma writes_app (l l' : list IOEvent) :
  writes (l ++ l') = (writes l ++ writes l')%list.
Proof. unfold writes. apply flat_map_app. Qed.

Lemma patched_model_is_written (r : Request K) (w : World H)
    (model model' : ITextModel) :
  snd (run (resolveAndValidate H) w) = Ok model ->
  patches H r model = Ok model' ->
  writes (log (fst (run (cycle H r) w)))
  = (writes (log w) ++ [getValue model'])%list
  /\ snd (run (cycle H r) w) = fst (write H (getValue model') (store w)).
Proof.
  intros V P. rewrite (cycle_of_validated r w model V), P, run_save.
  cbn [resolved record store log].
  destruct (write H (getValue model') (store w)) as [[[] | e] s];
    cbn [fst snd log]; rewrite !writes_app; cbn; rewrite ?app_nil_r;
    split; reflexivity.
Qed.

Lemma countModel_app (ev : ModelEvent) (l l' : list IOEvent) :
  countModel ev (l ++ l') = countModel ev l + countModel ev l'.
Proof. unfold countModel. now rewrite filter_app, length_app. Qed.

Lemma normalizeEOL_empty (e : EndOfLine) (s : string) :
  normalizeEOL (eolText e) false s = "" -> s = "".
Proof.
  destruct s as [|c s]; [reflexivity|]. simpl.
  destruct (c =? ascii_of_nat 13)%char; [destruct e; discriminate|].
  destruct (c =? ascii_of_nat 10)%char; [destruct e|]; discriminate.
Qed.

(** The model of an operation never has an empty text. *)
Lemma created_never_empty (stored : option string) :
  getValue (createModel H (orElse stored "[]")) <> "".
Proof.
  intros E. apply normalizeEOL_empty in E.
  destruct stored as [text|]; simpl in E; [|discriminate].
  destruct (truthy text) eqn:T; [|discriminate].
  apply truthy_true in T. contradiction.
Qed.

Lemma orElse_falsy (stored : option string) :
  truthy_opt stored = false -> orElse stored "[]" = "[]".
Proof.
  destruct stored as [text|]; simpl; [|reflexivity]. now intros ->.
Qed.

(** C5 does not hold of the code.  When the store holds nothing, or the
    empty text, [resolveModel] creates the model with the text of an
    empty array literal, so [resolveAndValidate] never sees an empty
    text: it does what it does for the document [[]], and the model it
    returns does not have the placeholder text. *)
Theorem empty_store_is_not_seeded (w : World H) (stored : option string) :
  read H (store w) = Ok stored ->
  truthy_opt stored = false ->
  getValue (createModel H (orElse stored "[]")) = "[]"
  /\ snd (run (resolveAndValidate H) w) = validate H (createModel H "[]")
  /\ forall model,
       snd (run (resolveAndValidate H) w) = Ok model ->
       getValue model <> getEmptyContent (getEOL model).
Proof.
  intros R F. rewrite run_resolveAndValidate, R, (orElse_falsy stored F).
  split; [reflexivity|]. split; [reflexivity|].
  intros model. cbn [snd]. rewrite validate_unfold.
  change (getValue (createModel H "[]")) with "[]". cbn [truthy String.eqb].
  simpl.
  destruct (0 <? _)%nat; [discriminate|].
  destruct (truthy_json _).
  - destruct (negb _); [discriminate|]. intros [= <-]. discriminate.
  - intros [= <-]. discriminate.
Qed.


(** C7.  Whatever the request and the world: either the cycle fails
    before the persist step (the read is rejected, the validation
    fails, or a patch fails), and then the error comes out of the
    promise, nothing has been written and the store is as it was; or
    the read, the validation and all the patches have succeeded, and
    then there is exactly one write, of the text of the patched model,
    whose outcome is the outcome of the promise. *)
Theorem persist_is_last_and_only_write (r : Request K) (w : World H) :
  (exists e,
      snd (run (cycle H r) w) = Throw e
      /\ writes (log (fst (run (cycle H r) w))) = writes (log w)
      /\ store (fst (run (cycle H r) w)) = store w
      /\ (read H (store w) = Throw e
          \/ exists stored,
               read H (store w) = Ok stored
               /\ (validate H (createModel H (orElse stored "[]")) = Throw e
                   \/ exists model,
                        validate H (createModel H (orElse stored "[]"))
                        = Ok model
                        /\ patches H r model = Throw e)))
  \/ (exists stored model model',
        read H (store w) = Ok stored
        /\ validate H (createModel H (orElse stored "[]")) = Ok model
        /\ patches H r model = Ok model'
        /\ writes (log (fst (run (cycle H r) w)))
           = (writes (log w) ++ [getValue model'])%list
        /\ store (fst (run (cycle H r) w))
           = snd (write H (getValue model') (store w))
        /\ snd (run (cycle H r) w)
           = fst (write H (getValue model') (store w))).
Proof.
  rewrite run_cycle.
  destruct (read H (store w)) as [stored | e] eqn:R.
  - destruct (validate H _) as [model | e] eqn:V.
    + destruct (patches H r model) as [model' | e] eqn:P.
      * right. exists stored, model, model'.
        rewrite run_save. simpl.
        split; [reflexivity|]. split; [exact V|]. split; [exact P|].
        destruct (write H (getValue model') (store w)) as [[[] | e] s]; simpl;
          rewrite !writes_app; simpl; rewrite ?app_nil_r;
          repeat split; reflexivity.
      * left. exists e. simpl. rewrite !writes_app. simpl.
        rewrite !app_nil_r. repeat split; try reflexivity.
        right. exists stored. split; [reflexivity|]. right.
        exists model. split; [exact V | exact P].
    + left. exists e. simpl. rewrite !writes_app. simpl.
      rewrite !app_nil_r. repeat split; try reflexivity.
      right. exists stored. split; [reflexivity|]. left. exact V.
  - left. exists e. simpl. rewrite !writes_app. simpl.
    rewrite !app_nil_r. repeat split; try reflexivity. now left.
Qed.

(** C8 does not hold of the code.  When the write of the persist step
    is rejected, [save] stops at its [await]: the promise is rejected
    with the error of the write, and the model created for the
    operation is neither disposed nor destroyed. *)
Theorem rejected_write_leaves_model (r : Request K) (w : World H)
    (stored : option string) (model model' : ITextModel) (e : Error) :
  read H (store w) = Ok stored ->
  validate H (createModel H (orElse stored "[]")) = Ok model ->
  patches H r model = Ok model' ->
  fst (write H (getValue model') (store w)) = Throw e ->
  snd (run (cycle H r) w) = Throw e
  /\ log (fst (run (cycle H r) w))
     = (log w ++ [DidRead; DidModel Created; DidWrite (getValue model')])%list
  /\ countModel Created (log (fst (run (cycle H r) w)))
     = S (countModel Created (log w))
  /\ countModel Disposed (log (fst (run (cycle H r) w)))
     = countModel Disposed (log w)
  /\ countModel Destroyed (log (fst (run (cycle H r) w)))
     = countModel Destroyed (log w).
Proof.
  intros R V P W. rewrite run_cycle, R, V, P, run_save.
  cbn [resolved record store log].
  destruct (write H (getValue model') (store w)) as [[u | e'] s];
    simpl in W; [discriminate|]. injection W as ->.
  cbn [fst snd log resolved record store].
  rewrite <- !app_assoc. cbn [app].
  rewrite !countModel_app. cbn. repeat split; try reflexivity; lia.
Qed.

End Cycles.

(** ** The queue *)

Section QueueProofs.

Variable K : ContextKeys.
Variable H : Host.

Lemma advance_run {A : Type} (t : Task A) : forall w : World H,
  run (snd (advance t w)) (fst (advance t w)) = run t w
  /\ awaits (snd (advance t w)) (fst (advance t w)) = awaits t w.
Proof.
  induction t as [a | e | k IH | text k IH | ev k IH]; intros w; simpl;
    try (split; reflexivity).
  apply IH.
Qed.

Lemma advance_stops {A : Type} (t : Task A) : forall w : World H,
  match snd (advance t w) with
  | Models _ _ => False
  | _ => True
  end.
Proof.
  induction t as [a | e | k IH | text k IH | ev k IH]; intros w; simpl; auto.
  apply IH.
Qed.

Lemma resume_run {A : Type} (t : Task A) (w : World H) :
  suspended t = true ->
  run (snd (resume t w)) (fst (resume t w)) = run t w
  /\ S (awaits (snd (resume t w)) (fst (resume t w))) = awaits t w.
Proof.
  destruct t as [a | e | k | text k | ev k];
    cbn [suspended resume run awaits]; try discriminate; intros _.
  - destruct (doRead w) as [w' r].
    destruct (advance_run (k r) w') as [R Aw]. now rewrite R, Aw.
  - destruct (doWrite text w) as [w' r].
    destruct (advance_run (k r) w') as [R Aw]. now rewrite R, Aw.
Qed.

Lemma resume_stops {A : Type} (t : Task A) (w : World H) :
  match snd (resume t w) with
  | Models _ _ => False
  | _ => True
  end.
Proof.
  destruct t as [a | e | k | text k | ev k]; cbn [resume advance snd]; auto.
  - destruct (doRead w) as [w' r]. apply advance_stops.
  - destruct (doWrite text w) as [w' r]. apply advance_stops.
  - apply advance_stops.
Qed.

Lemma consume_finish (factories : list (Task unit)) :
  forall (w : World H) (outcomes : list (Exn unit)),
  finish (consume w factories outcomes) = oneAtATime factories w outcomes
  /\ awaitsLeft (consume w factories outcomes) = awaitsOf factories w
  /\ steady (consume w factories outcomes).
Proof.
  induction factories as [|f rest IH]; intros w outcomes; simpl.
  - repeat split.
  - destruct (advance_run f w) as [R A].
    assert (S := advance_stops f w).
    destruct (advance f w) as [w' t]. simpl in R, A, S.
    rewrite <- R, <- A.
    destruct t as [a | e | k | text k | ev k]; simpl in *.
    + apply IH.
    + apply IH.
    + unfold finish, awaitsLeft, steady. simpl. destruct (doRead w').
      destruct (run (k e) w0). repeat split.
    + unfold finish, awaitsLeft, steady. simpl. destruct (doWrite text w').
      destruct (run (k e) w0). repeat split.
    + contradiction.
Qed.

Lemma turn_finish (s : Service H) :
  steady s ->
  finish (turn s) = finish s
  /\ steady (turn s)
  /\ (idle s = false -> S (awaitsLeft (turn s)) = awaitsLeft s).
Proof.
  destruct s as [w [[t|] out done]]; unfold steady; simpl.
  - intros Su.
    destruct (resume_run t w Su) as [R A].
    assert (St := resume_stops t w).
    destruct (resume t w) as [w' t']. simpl in R, A, St.
    unfold finish at 2. unfold awaitsLeft at 2. simpl.
    rewrite <- R, <- A.
    destruct t' as [a | e | k | text k | ev k]; simpl in *.
    + destruct (consume_finish out w' (done ++ [Ok a])) as (F & L & S').
      rewrite F, L. repeat split; auto.
    + destruct (consume_finish out w' (done ++ [Throw e])) as (F & L & S').
      rewrite F, L. repeat split; auto.
    + unfold finish, awaitsLeft, steady. simpl. repeat split.
    + unfold finish, awaitsLeft, steady. simpl. repeat split.
    + contradiction.
  - intros ->. repeat split. discriminate.
Qed.

Lemma oneAtATime_app (a b : list (Task unit)) :
  forall (w : World H) (outcomes : list (Exn unit)),
  oneAtATime (a ++ b) w outcomes
  = oneAtATime b (fst (oneAtATime a w outcomes))
      (snd (oneAtATime a w outcomes)).
Proof.
  induction a as [|t a IH]; intros w outcomes; simpl; [reflexivity|].
  destruct (run t w) as [w' r]. apply IH.
Qed.

Lemma queue_finish (factory : Task unit) (s : Service H) :
  steady s ->
  steady (queue factory s)
  /\ finish (queue factory s)
     = oneAtATime [factory] (fst (finish s)) (snd (finish s)).
Proof.
  destruct s as [w [[t|] out done]]; unfold steady;
    cbn [running outstanding settled snd fst].
  - intros Su. split; [exact Su|].
    unfold finish. simpl. destruct (run t w) as [w' r].
    now rewrite oneAtATime_app.
  - intros ->. unfold queue. cbn [running outstanding settled app].
    destruct (consume_finish [factory] w done) as (F & _ & S').
    split; [exact S'|]. rewrite F. reflexivity.
Qed.

Lemma happen_finish (h : Happening K) (s : Service H) :
  steady s ->
  steady (happen s h)
  /\ finish (happen s h)
     = oneAtATime (map (cycle H) (requestsOf [h])) (fst (finish s))
         (snd (finish s)).
Proof.
  intros Su. destruct h as [r|]; simpl.
  - destruct r; apply (queue_finish _ s Su).
  - destruct (turn_finish s Su) as (F & S' & _).
    split; [exact S'|]. rewrite F. now destruct (finish s).
Qed.

Lemma happenings_finish (hs : list (Happening K)) : forall s : Service H,
  steady s ->
  steady (fold_left (@happen K H) hs s)
  /\ finish (fold_left (@happen K H) hs s)
     = oneAtATime (map (cycle H) (requestsOf hs)) (fst (finish s))
         (snd (finish s)).
Proof.
  induction hs as [|h hs IH]; intros s Su; cbn [fold_left].
  - split; [exact Su | simpl; now destruct (finish s)].
  - destruct (happen_finish h s Su) as [S' F].
    destruct (IH _ S') as [S'' F']. split; [exact S''|].
    rewrite F', F.
    replace (requestsOf (h :: hs)) with (requestsOf [h] ++ requestsOf hs)%list
      by (destruct h; reflexivity).
    rewrite map_app, oneAtATime_app. reflexivity.
Qed.

Lemma idle_turn (s : Service H) : idle s = true -> turn s = s.
Proof.
  destruct s as [w [[t|] out done]]; simpl; [discriminate | reflexivity].
Qed.

Lemma idle_finish (s : Service H) :
  idle s = true -> finish s = (fst s, settled (snd s)).
Proof.
  destruct s as [w [[t|] [|f out] done]]; simpl; try discriminate.
  reflexivity.
Qed.

Lemma steady_idle (s : Service H) :
  steady s -> awaitsLeft s = 0 -> idle s = true.
Proof.
  destruct s as [w [[t|] out done]]; unfold steady, awaitsLeft;
    cbn [running outstanding settled snd fst].
  - destruct t; cbn [suspended awaits]; try discriminate.
    destruct (doWrite text w). intros _ E. discriminate E.
  - intros ->. reflexivity.
Qed.

Lemma idle_awaitsLeft (s : Service H) : idle s = true -> awaitsLeft s = 0.
Proof.
  destruct s as [w [[t|] [|f out] done]]; simpl; try discriminate.
  reflexivity.
Qed.

Lemma turns_drain (n : nat) : forall s : Service H,
  steady s -> awaitsLeft s <= n ->
  idle (turns n s) = true /\ finish (turns n s) = finish s.
Proof.
  induction n as [|n IH]; intros s Su L; simpl.
  - split; [apply steady_idle; [exact Su | lia] | reflexivity].
  - destruct (turn_finish s Su) as (F & S' & D).
    destruct (idle s) eqn:I.
    + rewrite (idle_turn s I).
      apply IH; [exact Su | rewrite (idle_awaitsLeft s I); lia].
    + specialize (D eq_refl).
      destruct (IH (turn s) S') as [I' F']; [lia|].
      split; [exact I' | congruence].
Qed.

(** C9.  The three public operations put their cycle on the one queue
    of the service.  Whenever the methods are called, before or between
    turns of the event loop, after enough turns the service is at rest,
    and then the world (the store and the record of every read, write
    and model event, in order) and the outcomes of the promises are
    those of the same cycles run one at a time in the order of the
    calls, each to its end before the next begins; a cycle that fails
    leaves the ones after it to run. *)
Theorem requests_run_one_at_a_time (hs : list (Happening K)) (w : World H) :
  exists n, forall m, n <= m ->
    let s := turns m (fold_left (@happen K H) hs (start w)) in
    idle s = true
    /\ (fst s, settled (snd s))
       = oneAtATime (map (cycle H) (requestsOf hs)) w [].
Proof.
  assert (S0 : steady (start w)) by reflexivity.
  destruct (happenings_finish hs (start w) S0) as [Su F].
  exists (awaitsLeft (fold_left (@happen K H) hs (start w))).
  intros m L s.
  destruct (turns_drain m _ Su L) as [I F']. fold s in I, F'.
  split; [exact I|].
  rewrite <- (idle_finish s I), F', F. reflexivity.
Qed.
End QueueProofs.

(** ** The patches of the operations *)

Lemma removeAt_length {A : Type} (pre : list A) (x : A) (rest : list A) :
  removeAt (Z.of_nat (List.length pre)) (pre ++ x :: rest) = (pre ++ rest)%list.
Proof.
  unfold removeAt.
  destruct (Z.ltb_spec (Z.of_nat (List.length pre)) 0); [lia|].
  rewrite Nat2Z.id.
  induction pre as [|y pre IH]; simpl; [reflexivity|].
  f_equal. apply IH. lia.
Qed.

(** ** The reference parser: where the elements are *)

Lemma chained_from (lo lo' hi : nat) (tokens : list Reference.Token) :
  lo' <= lo -> chained lo hi tokens -> chained lo' hi tokens.
Proof.
  destruct tokens as [|t rest]; simpl; [auto|].
  intros L (A & B & C). repeat split; [lia | exact B | exact C].
Qed.

Lemma apart_from (lo lo' hi : nat) (nodes : list Reference.Node) :
  lo' <= lo -> apart lo hi nodes -> apart lo' hi nodes.
Proof.
  destruct nodes as [|t rest]; simpl; [auto|].
  intros L (A & B & C). repeat split; [lia | exact B | exact C].
Qed.

Lemma lineCommentLength_le (s : string) :
  Reference.lineCommentLength s <= String.length s.
Proof.
  induction s as [|c s IH]; simpl; [lia|].
  destruct (Reference.isLineBreak c); lia.
Qed.

Lemma blockCommentLength_le (s : string) : forall n,
  Reference.blockCommentLength s = Some n -> n <= String.length s.
Proof.
  induction s as [|c s IH]; intros n; simpl; [discriminate|].
  destruct s as [|c' s']; [discriminate|].
  destruct ((c =? "*")%char && (c' =? "/")%char).
  - intros [= <-]. simpl. lia.
  - destruct (Reference.blockCommentLength (String c' s')) as [m|];
      [|discriminate].
    intros [= <-]. specialize (IH m eq_refl). simpl in *. lia.
Qed.

Lemma stringLiteral_bound (k : nat) : forall (s v : string) (n : nat),
  String.length s <= k ->
  Reference.stringLiteral s = Some (v, n) -> n <= String.length s.
Proof.
  induction k as [|k IH]; intros s v n L.
  - destruct s; [discriminate | simpl in L; lia].
  - destruct s as [|c s]; simpl; [discriminate|]. simpl in L.
    destruct (c =? Reference.quote)%char; [intros [= <- <-]; lia|].
    destruct (Reference.isLineBreak c); [discriminate|].
    destruct (c =? Reference.backslash)%char.
    + destruct s as [|e s']; [discriminate|]. simpl in L.
      destruct (Reference.unescape e); [|discriminate].
      destruct (Reference.stringLiteral s') as [[v' n']|] eqn:E;
        [|discriminate].
      intros [= <- <-]. apply IH in E; simpl in *; lia.
    + destruct (Reference.stringLiteral s) as [[v' n']|] eqn:E;
        [|discriminate].
      intros [= <- <-]. apply IH in E; simpl in *; lia.
Qed.

Lemma stringLiteral_le (s v : string) (n : nat) :
  Reference.stringLiteral s = Some (v, n) -> n <= String.length s.
Proof. apply (stringLiteral_bound (String.length s)). lia. Qed.

Lemma spanLength_le (p : ascii -> bool) (s : string) :
  Reference.spanLength p s <= String.length s.
Proof.
  induction s as [|c s IH]; simpl; [lia|]. destruct (p c); lia.
Qed.

Lemma scan_chained (fuel : nat) : forall (s : string) (pos : nat),
  chained pos (pos + String.length s) (Reference.scan fuel s pos).
Proof.
  induction fuel as [|fuel IH]; intros s pos; [exact I|].
  destruct s as [|c rest]; [exact I|].
  cbn [Reference.scan String.length].
  assert (Next : forall n tail,
            n <= String.length tail ->
            forall k, k + String.length tail = S (String.length rest) ->
            chained (pos + k + n) (pos + S (String.length rest))
              (Reference.scan fuel (dropString n tail) (pos + k + n))).
  { intros n tail L k E.
    replace (pos + S (String.length rest))
      with (pos + k + n + String.length (dropString n tail))
      by (rewrite length_dropString; lia).
    apply IH. }
  destruct (Reference.isWhiteSpace c).
  { apply (chained_from (S pos)); [lia|].
    replace (pos + S (String.length rest)) with (S pos + String.length rest)
      by lia. apply IH. }
  destruct (c =? "/")%char.
  { destruct rest as [|c' body];
      [simpl; unfold Reference.tokenEnd; simpl; lia|].
    destruct (c' =? "/")%char.
    - apply (chained_from (pos + 2 + Reference.lineCommentLength body));
        [lia|].
      apply (Next _ body (lineCommentLength_le body) 2). simpl. lia.
    - destruct (c' =? "*")%char.
      + destruct (Reference.blockCommentLength body) as [n|] eqn:B.
        * apply (chained_from (pos + 2 + n)); [lia|].
          apply (Next _ body (blockCommentLength_le body n B) 2). simpl. lia.
        * simpl. unfold Reference.tokenEnd. simpl. lia.
      + simpl. unfold Reference.tokenEnd. simpl. lia. }
  destruct (c =? Reference.quote)%char.
  { destruct (Reference.stringLiteral rest) as [[v n]|] eqn:St.
    - simpl. unfold Reference.tokenEnd. simpl.
      split; [lia|]. assert (L := stringLiteral_le rest v n St).
      split; [lia|].
      replace (pos + S n) with (pos + 1 + n) by lia.
      apply (Next n rest L 1). lia.
    - simpl. unfold Reference.tokenEnd. simpl. lia. }
  destruct (Reference.punctuation c) as [k|].
  { simpl. unfold Reference.tokenEnd. simpl. split; [lia|]. split; [lia|].
    replace (pos + 1) with (S pos) by lia.
    replace (pos + S (String.length rest)) with (S pos + String.length rest)
      by lia. apply IH. }
  destruct (Reference.isDigit c || (c =? "-")%char).
  { simpl. unfold Reference.tokenEnd. simpl.
    assert (L := spanLength_le Reference.isNumberPart rest).
    split; [lia|]. split; [lia|].
    replace (pos + S (Reference.spanLength Reference.isNumberPart rest))
      with (pos + 1 + Reference.spanLength Reference.isNumberPart rest) by lia.
    apply (Next _ rest L 1). lia. }
  destruct (Reference.isLetter c).
  { simpl. unfold Reference.tokenEnd. simpl.
    assert (L := spanLength_le Reference.isLetter rest).
    split; [lia|]. split; [lia|].
    replace (pos + S (Reference.spanLength Reference.isLetter rest))
      with (pos + 1 + Reference.spanLength Reference.isLetter rest) by lia.
    apply (Next _ rest L 1). lia. }
  simpl. unfold Reference.tokenEnd. simpl. lia.
Qed.

Lemma parse_apart (fuel : nat) :
  forall (tokens : list Reference.Token) (lo hi : nat),
  chained lo hi tokens ->
  (forall node rest,
     Reference.parseValue fuel tokens = inr (node, rest) ->
     lo <= Reference.nodeOffset node /\ Reference.nodeEnd node <= hi
     /\ chained (Reference.nodeEnd node) hi rest /\ rootApart node)
  /\ (forall children close rest,
        Reference.parseElements fuel tokens = inr (children, close, rest) ->
        apart lo close children /\ lo <= close <= hi /\ chained close hi rest)
  /\ (forall properties close rest,
        Reference.parseMembers fuel tokens = inr (properties, close, rest) ->
        lo <= close <= hi /\ chained close hi rest).
Proof.
  induction fuel as [|fuel IH]; intros tokens lo hi C.
  - split; [|split]; intros; simpl in *; try discriminate;
      destruct tokens; discriminate.
  - split; [|split].
    + intros node rest. cbn [Reference.parseValue].
      destruct tokens as [|t tokens']; [discriminate|].
      destruct C as (Lo & Hi & C').
      assert (Leaf : forall v,
                lo <= Reference.tokenOffset t
                /\ Reference.nodeEnd
                     (Reference.Leaf v (Reference.tokenOffset t)
                        (Reference.tokenLength t)) <= hi
                /\ chained
                     (Reference.nodeEnd
                        (Reference.Leaf v (Reference.tokenOffset t)
                           (Reference.tokenLength t))) hi tokens'
                /\ True).
      { intros v. repeat split; [exact Lo | exact Hi | exact C']. }
      destruct (Reference.kind t) eqn:Kd; try discriminate;
        try (intros [= <- <-]; apply Leaf).
      * (* object *)
        destruct tokens' as [|t' rest']; [discriminate|].
        destruct (Reference.kind t') eqn:Kd';
          try (destruct (Reference.parseMembers fuel (t' :: rest'))
                 as [err | [[properties close] rest'']] eqn:M;
               [discriminate|];
               intros [= <- <-];
               destruct (IH (t' :: rest') _ hi C') as (_ & _ & Mem);
               destruct (Mem _ _ _ M) as (Cl & Ch);
               unfold Reference.nodeEnd, Reference.tokenEnd in *; simpl;
               replace (Reference.tokenOffset t
                        + (close - Reference.tokenOffset t)) with close by lia;
               repeat split; [exact Lo | lia | exact Ch]).
        intros [= <- <-]. destruct C' as (Lo' & Hi' & C'').
        unfold Reference.nodeEnd, Reference.tokenEnd in *. simpl.
        replace (Reference.tokenOffset t
                 + (Reference.tokenOffset t' + Reference.tokenLength t'
                    - Reference.tokenOffset t))
          with (Reference.tokenOffset t' + Reference.tokenLength t') by lia.
        repeat split; [exact Lo | exact Hi' | exact C''].
      * (* array *)
        destruct tokens' as [|t' rest']; [discriminate|].
        destruct (Reference.kind t') eqn:Kd';
          try (destruct (Reference.parseElements fuel (t' :: rest'))
                 as [err | [[children close] rest'']] eqn:M;
               [discriminate|];
               intros [= <- <-];
               destruct (IH (t' :: rest') _ hi C') as (_ & El & _);
               destruct (El _ _ _ M) as (Ap & Cl & Ch);
               unfold Reference.nodeEnd, Reference.tokenEnd in *; simpl;
               replace (Reference.tokenOffset t
                        + (close - Reference.tokenOffset t)) with close by lia;
               repeat split; [exact Lo | lia | exact Ch |];
               apply (apart_from
                        (Reference.tokenOffset t + Reference.tokenLength t));
               [lia | exact Ap]).
        intros [= <- <-]. destruct C' as (Lo' & Hi' & C'').
        unfold Reference.nodeEnd, Reference.tokenEnd in *. simpl.
        replace (Reference.tokenOffset t
                 + (Reference.tokenOffset t' + Reference.tokenLength t'
                    - Reference.tokenOffset t))
          with (Reference.tokenOffset t' + Reference.tokenLength t') by lia.
        repeat split; [exact Lo | exact Hi' | exact C''].
    + intros children close rest. cbn [Reference.parseElements].
      destruct (Reference.parseValue fuel tokens)
        as [code | [child [|t rest']]] eqn:V; try discriminate.
      destruct (IH tokens lo hi C) as (Val & _ & _).
      destruct (Val _ _ V) as (Lo & Hi & (Lt & Ht & C') & _).
      destruct (Reference.kind t) eqn:Kd; try discriminate.
      * intros [= <- <- <-]. simpl.
        unfold Reference.tokenEnd, Reference.nodeEnd in *.
        repeat split; try lia. exact C'.
      * destruct (Reference.parseElements fuel rest')
          as [code | [[children' close'] rest'']] eqn:E; [discriminate|].
        intros [= <- <- <-].
        destruct (IH rest' _ hi C') as (_ & El & _).
        destruct (El _ _ _ E) as (Ap & Cl & Ch).
        simpl. unfold Reference.tokenEnd, Reference.nodeEnd in *.
        split; [split; [lia | split; [lia|]] | split; [lia | exact Ch]].
        apply (apart_from
                 (Reference.tokenOffset t + Reference.tokenLength t));
          [lia | exact Ap].
    + intros properties close rest. cbn [Reference.parseMembers].
      destruct tokens as [|name [|colon rest0]]; try discriminate.
      { destruct (Reference.kind name); discriminate. }
      destruct C as (Ln & Hn & Lc & Hc & C').
      destruct (Reference.kind name) eqn:Kn; try discriminate.
      destruct (Reference.kind colon) eqn:Kc; try discriminate.
      destruct (Reference.parseValue fuel rest0)
        as [code | [v [|t rest']]] eqn:V; try discriminate.
      destruct (IH rest0 _ hi C') as (Val & _ & _).
      destruct (Val _ _ V) as (Lo & Hi & (Lt & Ht & C'') & _).
      destruct (Reference.kind t) eqn:Kd; try discriminate.
      * intros [= <- <- <-]. unfold Reference.tokenEnd, Reference.nodeEnd in *.
        repeat split; try lia. exact C''.
      * destruct (Reference.parseMembers fuel rest')
          as [code | [[properties' close'] rest'']] eqn:E; [discriminate|].
        intros [= <- <- <-].
        destruct (IH rest' _ hi C'') as (_ & _ & Mem).
        destruct (Mem _ _ _ E) as (Cl & Ch).
        unfold Reference.tokenEnd, Reference.nodeEnd in *.
        repeat split; try lia. exact Ch.
Qed.

Lemma apart_nth (nodes : list Reference.Node) : forall (lo hi j : nat) x,
  apart lo hi nodes ->
  nth_error nodes j = Some x ->
  lo <= Reference.nodeOffset x /\ Reference.nodeEnd x <= hi
  /\ forall k y, j < k -> nth_error nodes k = Some y ->
                 Reference.nodeEnd x <= Reference.nodeOffset y.
Proof.
  induction nodes as [|n nodes IH]; intros lo hi j x A N.
  - destruct j; discriminate.
  - destruct A as (Lo & Hi & A). destruct j as [|j]; simpl in N.
    + injection N as <-. split; [exact Lo|]. split; [exact Hi|].
      intros [|k] y L Nk; [lia|]. simpl in Nk.
      destruct (IH _ _ k y A Nk) as (Lo' & _). exact Lo'.
    + destruct (IH _ _ j x A N) as (Lo' & Hi' & Next).
      unfold Reference.nodeEnd in *.
      split; [lia|]. split; [exact Hi'|].
      intros [|k] y L Nk; [lia|]. simpl in Nk.
      apply (Next k y); [lia | exact Nk].
Qed.

Lemma elements_apart (text : string) (children : list Reference.Node)
    (off len : nat) :
  fst (Reference.parseTree text)
  = Some (Reference.ArrayNode children off len) ->
  apart off (off + len) children /\ off + len <= String.length text.
Proof.
  unfold Reference.parseTree.
  assert (C := scan_chained (S (String.length text)) text 0).
  destruct (Reference.scan (S (String.length text)) text 0) as [|t tokens];
    [discriminate|].
  destruct (Reference.parseValue _ (t :: tokens))
    as [code | [root rest]] eqn:V.
  - discriminate.
  - destruct (parse_apart (2 * List.length (t :: tokens) + 2) _ _ _ C)
      as (Val & _).
    destruct (Val _ _ V) as (_ & Hi & _ & R).
    destruct rest; cbn [fst]; intros [= ->]; (split; [exact R | exact Hi]).
Qed.

(** The elements of the array of a text lie in the text one after the
    other, in their order. *)
Lemma elementRange_apart (text : string) (j a n : nat) :
  Reference.elementRange text j = Some (a, n) ->
  a + n <= String.length text
  /\ forall k b m,
       Reference.elementRange text k = Some (b, m) -> j < k -> a + n <= b.
Proof.
  unfold Reference.elementRange.
  destruct (fst (Reference.parseTree text)) as [[| children off len |]|] eqn:P;
    try discriminate.
  destruct (elements_apart text children off len P) as (A & L).
  destruct (nth_error children j) as [x|] eqn:N; [|discriminate].
  intros [= <- <-].
  destruct (apart_nth children _ _ j x A N) as (_ & Hi & Next).
  unfold Reference.nodeEnd in *. split; [lia|].
  intros k b m. destruct (nth_error children k) as [y|] eqn:Nk; [|discriminate].
  intros [= <- <-] Lt. apply (Next k y Lt Nk).
Qed.

(** ** The frame of an edit *)

Section Frame.
Variable K : ContextKeys.
Variable H : Host.

Lemma removeDefaultKeybinding_no_label (item : ResolvedKeybindingItem K)
    (model : ITextModel) :
  truthy_opt (resolvedLabel item) = false ->
  removeDefaultKeybinding H item model = Ok model.
Proof.
  unfold removeDefaultKeybinding, resolvedLabel.
  destruct (resolvedKeybinding item) as [[[label|]]|]; simpl;
    try reflexivity.
  now intros ->.
Qed.

(** What the patches of an assign request that matches an entry leave
    of the text, for a binding that is not a default binding with a
    label, when the two edits of the editor lie inside a span. *)
Lemma editPatches_frame
    (item : ResolvedKeybindingItem K) (key : string) (when : option string)
    (model : ITextModel) (entries : list IUserFriendlyKeybinding)
    (start len : nat) (e1 : Edit) (rest1 edits2 : list Edit) :
  isDefault item && truthy_opt (resolvedLabel item) = false ->
  userKeybindingEntriesOf H (getValue model) = Ok entries ->
  findUserKeybindingEntryIndex item entries <> (-1)%Z ->
  start + len <= String.length (getValue model) ->
  setProperty H (getValue model)
    [Index (findUserKeybindingEntryIndex item entries); Property "key"]
    (Some (JString key)) (formatting model) = Ok (e1 :: rest1) ->
  inside e1 start len ->
  setProperty H (patched e1 (getValue model))
    [Index (findUserKeybindingEntryIndex item entries); Property "when"]
    (option_map JString when) (formatting model) = Ok edits2 ->
  (forall e2, hd_error edits2 = Some e2 ->
              inside e2 start (len + String.length (content e1) - length e1)) ->
  exists model',
    editPatches H item key when model = Ok model'
    /\ getValue model'
       = takeString start (getValue model)
         ++ editedSpan start e1 edits2 (slice start len (getValue model))
         ++ dropString (start + len) (getValue model)
    /\ (forall a n, a + n <= start ->
          slice a n (getValue model') = slice a n (getValue model))
    /\ (forall a n, start + len <= a ->
          slice (a + String.length
                       (editedSpan start e1 edits2
                          (slice start len (getValue model)))
                 - len) n (getValue model')
          = slice a n (getValue model)).
Proof.
  intros D E F L S1 I1 S2 I2.
  destruct (text_around_span start len (getValue model) L) as (T & Lp & Lm).
  set (p := takeString start (getValue model)) in *.
  set (m := slice start len (getValue model)) in *.
  set (s := dropString (start + len) (getValue model)) in *.
  assert (I1' : inside e1 (String.length p) (String.length m))
    by now rewrite Lp, Lm.
  rewrite T in S2.
  destruct (patched_inside e1 p m s I1') as (P1 & L1).
  rewrite Lp in P1, L1.
  set (m1 := patched (relocated start e1) m) in *.
  rewrite P1 in S2.
  set (m2 := editedSpan start e1 edits2 m).
  assert (Step :
    (if (0 <? List.length edits2)%nat
     then applyEditsToBuffer (nth_error edits2 0)
            (setValue model (p ++ m1 ++ s))
     else Ok (setValue model (p ++ m1 ++ s)))
    = Ok (setValue model (p ++ m2 ++ s))).
  { subst m2. unfold editedSpan. fold m1.
    destruct edits2 as [|e2 rest2]; cbn -[applyEditsToBuffer patched].
    - reflexivity.
    - assert (I2' : inside e2 (String.length p) (String.length m1)).
      { destruct I1 as [A B].
        replace (String.length m1)
          with (len + String.length (content e1) - length e1) by lia.
        rewrite Lp. now apply I2. }
      destruct (patched_inside e2 p m1 s I2') as (P2 & _).
      rewrite Lp in P2.
      rewrite applyEditsToBuffer_patched.
      change (getValue (setValue model (p ++ m1 ++ s))) with (p ++ m1 ++ s).
      now rewrite P2. }
  exists (setValue model (p ++ m2 ++ s)).
  assert (Run : editPatches H item key when model
                = Ok (setValue model (p ++ m2 ++ s))).
  { unfold editPatches. rewrite E. cbn [bind].
    unfold updateKeybinding.
    apply Z.eqb_neq in F. rewrite F. cbn [negb].
    rewrite S1. cbn [bind]. change (nth_error (e1 :: rest1) 0) with (Some e1).
    rewrite applyEditsToBuffer_patched.
    cbn [bind].
    replace (getValue (setValue model (patched e1 (getValue model))))
      with (p ++ m1 ++ s) by (rewrite <- P1, <- T; reflexivity).
    rewrite S2. cbn [bind].
    replace (setValue model (patched e1 (getValue model)))
      with (setValue model (p ++ m1 ++ s))
      by (rewrite <- P1, <- T; reflexivity).
    rewrite Step. cbn [bind].
    destruct (isDefault item) eqn:Dflt; simpl in D |- *.
    - destruct (isSome (resolvedKeybinding item)); [|reflexivity].
      now apply removeDefaultKeybinding_no_label.
    - reflexivity. }
  split; [exact Run|]. split; [reflexivity|]. split.
  - intros a n La.
    change (getValue (setValue model (p ++ m2 ++ s))) with (p ++ m2 ++ s).
    rewrite T. apply slice_before. lia.
  - intros a n La.
    change (getValue (setValue model (p ++ m2 ++ s))) with (p ++ m2 ++ s).
    rewrite T. rewrite <- Lm at 1. apply slice_after. lia.
Qed.


End Frame.

Section Entries.
Variable K : ContextKeys.
Variable H : Host.

Lemma asEntries_app (a b : list Json) :
  asEntries (a ++ b)
  = match asEntries a, asEntries b with
    | Some x, Some y => Some (x ++ y)%list
    | _, _ => None
    end.
Proof.
  induction a as [|v a IH]; simpl.
  - now destruct (asEntries b).
  - destruct (asEntry v); [|reflexivity]. rewrite IH.
    destruct (asEntries a), (asEntries b); reflexivity.
Qed.

Lemma asEntries_firstn (n : nat) : forall items entries,
  asEntries items = Some entries ->
  asEntries (firstn n items) = Some (firstn n entries).
Proof.
  induction n as [|n IH]; intros [|v items] entries E; simpl in *;
    try (injection E as <-; reflexivity).
  - reflexivity.
  - destruct (asEntry v) as [e|]; [|discriminate].
    destruct (asEntries items) as [es|] eqn:Es; [|discriminate].
    injection E as <-. simpl. now rewrite (IH items es Es).
Qed.

Lemma asEntries_skipn (n : nat) : forall items entries,
  asEntries items = Some entries ->
  asEntries (skipn n items) = Some (skipn n entries).
Proof.
  induction n as [|n IH]; intros [|v items] entries E; simpl in *;
    try (injection E as <-; reflexivity); try exact E.
  destruct (asEntry v) as [e|]; [|discriminate].
  destruct (asEntries items) as [es|] eqn:Es; [|discriminate].
  injection E as <-. simpl. now apply IH.
Qed.

Lemma asEntries_removeAt (index : Z) (items : list Json)
    (entries : list IUserFriendlyKeybinding) :
  asEntries items = Some entries ->
  asEntries (removeAt index items) = Some (removeAt index entries).
Proof.
  intros E. unfold removeAt. destruct (index <? 0)%Z; [exact E|].
  rewrite asEntries_app.
  rewrite (asEntries_firstn _ _ _ E), (asEntries_skipn _ _ _ E).
  reflexivity.
Qed.

Lemma entries_of_array (text : string) (items : list Json)
    (entries : list IUserFriendlyKeybinding) :
  arrayOf H text = Some items ->
  asEntries items = Some entries ->
  userKeybindingEntriesOf H text = Ok entries.
Proof.
  unfold arrayOf, userKeybindingEntriesOf.
  destruct (fst (json_parse H text)) as [[]|]; try discriminate.
  intros [= ->] ->. reflexivity.
Qed.

Lemma array_of_entries (text : string)
    (entries : list IUserFriendlyKeybinding) :
  userKeybindingEntriesOf H text = Ok entries ->
  exists items, arrayOf H text = Some items /\ asEntries items = Some entries.
Proof.
  unfold arrayOf, userKeybindingEntriesOf.
  destruct (fst (json_parse H text)) as [[]|]; try discriminate.
  destruct (asEntries items) as [es|] eqn:E; [|discriminate].
  intros [= <-]. now exists items.
Qed.

Lemma asEntry_asObject (label c : string) (w : option string)
    (negate : bool) :
  c <> "" ->
  asEntry (asObject label (Some c) w negate)
  = Some {| key := label;
            command := if negate then "-" ++ c else c;
            when := writtenWhen w |}.
Proof.
  intros N. apply truthy_true in N. unfold asObject, writtenWhen.
  rewrite N. destruct w as [w|]; [destruct (truthy w)|]; reflexivity.
Qed.

(** Removing, last first, the entries a test selects leaves the
    others. *)
Lemma unassigned_indices_from (item : ResolvedKeybindingItem K)
    (entries : list IUserFriendlyKeybinding) :
  forall pre : list IUserFriendlyKeybinding,
  fold_left (fun l index => removeAt index l)
    (rev (findUnassignedDefaultKeybindingEntryIndexFrom item entries
            (Z.of_nat (List.length pre))))
    (pre ++ entries)%list
  = (pre ++ filter (fun kb => negb (isNegationOf item kb)) entries)%list.
Proof.
  induction entries as [|kb rest IH]; intros pre; simpl.
  - reflexivity.
  - specialize (IH (pre ++ [kb])%list).
    rewrite length_app in IH. simpl in IH.
    replace (Z.of_nat (List.length pre + 1))
      with (Z.of_nat (List.length pre) + 1)%Z in IH by lia.
    rewrite <- !app_assoc in IH. simpl in IH.
    unfold isNegationOf at 1.
    destruct (command kb =? negated (itemCommand item)); simpl.
    + rewrite fold_left_app, IH. simpl. apply removeAt_length.
    + exact IH.
Qed.

Lemma unassigned_indices (item : ResolvedKeybindingItem K)
    (entries : list IUserFriendlyKeybinding) :
  fold_left (fun l index => removeAt index l)
    (rev (findUnassignedDefaultKeybindingEntryIndex item entries)) entries
  = filter (fun kb => negb (isNegationOf item kb)) entries.
Proof. exact (unassigned_indices_from item entries []). Qed.

Lemma removeEach_removes (indices : list Z) (fmt : FormattingOptions) :
  forall (model : ITextModel) (items : list Json),
  arrayOf H (getValue model) = Some items ->
  removesElements H indices fmt (getValue model) ->
  exists text,
    removeEach H indices fmt model = Ok (setValue model text)
    /\ arrayOf H text
       = Some (fold_left (fun l index => removeAt index l) indices items).
Proof.
  induction indices as [|index rest IH]; intros model items A C.
  - exists (getValue model). split; [now destruct model | exact A].
  - destruct C as [C1 C2]. unfold removesElement in C1.
    rewrite A in C1. cbn [removeEach].
    destruct (setProperty H (getValue model) [Index index] None fmt)
      as [[|edit edits] | e]; try contradiction.
    cbn [bind]. change (nth_error (edit :: edits) 0) with (Some edit).
    rewrite applyEditsToBuffer_patched. cbn [bind].
    destruct (IH (setValue model (patched edit (getValue model)))
                (removeAt index items) C1 C2) as (text & R & A').
    exists text. split; [exact R | exact A'].
Qed.

Lemma fold_removeAt_entries (indices : list Z) :
  forall (items : list Json) (entries : list IUserFriendlyKeybinding),
  asEntries items = Some entries ->
  asEntries (fold_left (fun l index => removeAt index l) indices items)
  = Some (fold_left (fun l index => removeAt index l) indices entries).
Proof.
  induction indices as [|index rest IH]; intros items entries E; simpl.
  - exact E.
  - apply IH. now apply asEntries_removeAt.
Qed.

(** What the patches of a reset request leave, with an editor that
    removes the elements it is asked to remove. *)
Lemma resetPatches_entries
    (item : ResolvedKeybindingItem K) (model model1 : ITextModel)
    (entries : list IUserFriendlyKeybinding) :
  isDefault item = false ->
  userKeybindingEntriesOf H (getValue model) = Ok entries ->
  (findUserKeybindingEntryIndex item entries <> (-1)%Z ->
   removesElement H (getValue model)
     (findUserKeybindingEntryIndex item entries) (formatting model)) ->
  removeUserKeybinding H item model = Ok model1 ->
  removesElements H
    (rev (findUnassignedDefaultKeybindingEntryIndex item
            (removeAt (findUserKeybindingEntryIndex item entries) entries)))
    (formatting model) (getValue model1) ->
  exists model',
    resetPatches H item model = Ok model'
    /\ userKeybindingEntriesOf H (getValue model')
       = Ok (filter (fun kb => negb (isNegationOf item kb))
               (removeAt (findUserKeybindingEntryIndex item entries) entries))
    /\ (forall entries',
          userKeybindingEntriesOf H (getValue model') = Ok entries' ->
          Forall (fun kb => command kb <> negated (itemCommand item)) entries').
Proof.
  intros D E C1 R C2.
  destruct (array_of_entries _ _ E) as (items & A & As).
  set (index := findUserKeybindingEntryIndex item entries) in *.
  assert (A1 : arrayOf H (getValue model1) = Some (removeAt index items)
               /\ formatting model1 = formatting model).
  { unfold removeUserKeybinding in R. rewrite E in R. cbn [bind] in R.
    fold index in R.
    destruct (Z.eqb_spec index (-1)) as [N | N]; cbn [negb] in R.
    - injection R as <-. rewrite N. split; [exact A | reflexivity].
    - specialize (C1 N). unfold removesElement in C1. rewrite A in C1.
      destruct (setProperty H (getValue model) [Index index] None
                  (formatting model)) as [[|edit edits] | e];
        try contradiction.
      cbn [bind] in R.
      change (nth_error (edit :: edits) 0) with (Some edit) in R.
      rewrite applyEditsToBuffer_patched in R. injection R as <-.
      split; [exact C1 | reflexivity]. }
  destruct A1 as [A1 F1].
  assert (E1 := entries_of_array _ _ _ A1 (asEntries_removeAt index _ _ As)).
  destruct (removeEach_removes _ _ model1 _ A1 C2) as (text & Rm & A2).
  assert (E2 := fold_removeAt_entries
                  (rev (findUnassignedDefaultKeybindingEntryIndex item
                          (removeAt index entries)))
                  _ _ (asEntries_removeAt index _ _ As)).
  assert (Final : userKeybindingEntriesOf H text
                  = Ok (filter (fun kb => negb (isNegationOf item kb))
                          (removeAt index entries))).
  { rewrite <- unassigned_indices. exact (entries_of_array _ _ _ A2 E2). }
  exists (setValue model1 text). split; [|split].
  - unfold resetPatches. rewrite D. cbn [negb]. rewrite R. cbn [bind].
    unfold removeUnassignedDefaultKeybinding. rewrite E1. cbn [bind].
    rewrite F1. exact Rm.
  - exact Final.
  - intros entries'. change (getValue (setValue model1 text)) with text.
    rewrite Final. intros [= <-].
    apply Forall_forall. intros kb In. apply filter_In in In.
    destruct In as [_ In]. unfold isNegationOf in In.
    apply negb_true_iff in In. now apply String.eqb_neq.
Qed.

Lemma removeUserKeybinding_runs (item : ResolvedKeybindingItem K)
    (model : ITextModel) (entries : list IUserFriendlyKeybinding) :
  userKeybindingEntriesOf H (getValue model) = Ok entries ->
  (findUserKeybindingEntryIndex item entries <> (-1)%Z ->
   removesElement H (getValue model)
     (findUserKeybindingEntryIndex item entries) (formatting model)) ->
  exists model1, removeUserKeybinding H item model = Ok model1.
Proof.
  intros E C. unfold removeUserKeybinding. rewrite E. cbn [bind].
  destruct (Z.eqb_spec (findUserKeybindingEntryIndex item entries) (-1))
    as [N | N]; cbn [negb].
  - now exists model.
  - specialize (C N). unfold removesElement in C.
    destruct (arrayOf H (getValue model)); [|contradiction].
    destruct (setProperty H (getValue model) _ None (formatting model))
      as [[|edit edits] | e]; try contradiction.
    cbn [bind]. change (nth_error (edit :: edits) 0) with (Some edit).
    rewrite applyEditsToBuffer_patched. eexists. reflexivity.
Qed.

(** C3, as the code has it.  A reset request for a binding that is not
    a default binding, on a document [resolveAndValidate] accepts whose
    entries are of the declared type, with an editor that removes the
    elements it is asked to remove: the operation writes to the store,
    once, a document whose entries are the entries of the original
    without the first entry that matches the binding (its command and
    its when), if there is one, and without any entry whose command is
    the negation of the command of the binding, whatever its when.  No
    entry with the negated command is left; other entries with the
    command itself (another when, a duplicate) stay. *)
Theorem reset_removes_first_match_and_negations
    (item : ResolvedKeybindingItem K) (w : World H) (model : ITextModel)
    (entries : list IUserFriendlyKeybinding) :
  isDefault item = false ->
  snd (run (resolveAndValidate H) w) = Ok model ->
  userKeybindingEntriesOf H (getValue model) = Ok entries ->
  (findUserKeybindingEntryIndex item entries <> (-1)%Z ->
   removesElement H (getValue model)
     (findUserKeybindingEntryIndex item entries) (formatting model)) ->
  (forall model1,
     removeUserKeybinding H item model = Ok model1 ->
     removesElements H
       (rev (findUnassignedDefaultKeybindingEntryIndex item
               (removeAt (findUserKeybindingEntryIndex item entries)
                  entries)))
       (formatting model) (getValue model1)) ->
  exists text,
    writes (log (fst (run (cycle H (ResetKeybinding item)) w)))
    = (writes (log w) ++ [text])%list
    /\ snd (run (cycle H (ResetKeybinding item)) w)
       = fst (write H text (store w))
    /\ userKeybindingEntriesOf H text
       = Ok (filter (fun kb => negb (isNegationOf item kb))
               (removeAt (findUserKeybindingEntryIndex item entries) entries))
    /\ Forall (fun kb => command kb <> negated (itemCommand item))
         (filter (fun kb => negb (isNegationOf item kb))
            (removeAt (findUserKeybindingEntryIndex item entries) entries)).
Proof.
  intros D V E C1 C2.
  destruct (removeUserKeybinding_runs item model entries E C1) as (model1 & R).
  destruct (resetPatches_entries item model model1 entries D E C1 R
              (C2 model1 R)) as (model' & P & E' & F).
  destruct (patched_model_is_written K H (ResetKeybinding item) w model model'
              V P) as (Wr & O).
  exists (getValue model').
  split; [exact Wr|]. split; [exact O|]. split; [exact E'|].
  exact (F _ E').
Qed.

End Entries.

(** ** The service on the reference collaborators *)

Import Examples.

(** With a canonicalizer that has no expression for the when of the
    first entry: the matcher passes over that entry and returns the
    next one; it passes over it too when the text of that when is the
    very text the when of the binding serializes to. *)
Lemma undeserializable_when_never_found_witness :
  findUserKeybindingEntryIndex strictC brokenWhen <> Z.of_nat 0
  /\ findUserKeybindingEntryIndex strictC brokenWhen = 1%Z
  /\ serialize strictKeys (["x"; ""] : ContextKeyExpr strictKeys) = "x && "
  /\ findUserKeybindingEntryIndex oddC brokenWhen <> Z.of_nat 0.
Proof.
  split; [|split; [|split]].
  - apply (undeserializable_when_never_found strictKeys strictC
             brokenWhen 0
             {| key := "a"; command := "c"; when := Some "x && " |} "x && ").
    + reflexivity.
    + reflexivity.
    + discriminate.
    + vm_compute. reflexivity.
  - vm_compute. reflexivity.
  - vm_compute. reflexivity.
  - apply (undeserializable_when_never_found strictKeys oddC
             brokenWhen 0
             {| key := "a"; command := "c"; when := Some "x && " |} "x && ").
    + reflexivity.
    + reflexivity.
    + discriminate.
    + vm_compute. reflexivity.
Defined.

(** An entry whose when is the empty string has a when, and the entry
    after it is the first whose when is absent as the binding's is; the
    matcher returns the entry with the empty when. *)
Lemma empty_when_counts_as_absent :
  nth_error emptyWhenFirst 0
  = Some {| key := "a"; command := "c"; when := Some "" |}
  /\ ~ entryMatchesAsWritten userC
        {| key := "a"; command := "c"; when := Some "" |}
  /\ entryMatchesAsWritten userC
       {| key := "b"; command := "c"; when := None |}
  /\ findUserKeybindingEntryIndex userC emptyWhenFirst = 0%Z.
Proof.
  split; [reflexivity|]. split; [|split].
  - intros [_ [[W _] | (w & e & t & _ & T & _)]]; discriminate.
  - split; [reflexivity|]. left. split; reflexivity.
  - vm_compute. reflexivity.
Qed.

(** The empty string is a when that does not deserialize, and the
    matcher returns the entry that has it. *)
Lemma empty_when_is_found :
  nth_error emptyWhenAlone 0
  = Some {| key := "a"; command := "c"; when := Some "" |}
  /\ deserialize Reference.contextKeys "" = None
  /\ findUserKeybindingEntryIndex userC emptyWhenAlone = Z.of_nat 0.
Proof.
  split; [reflexivity|]. split; vm_compute; reflexivity.
Qed.


(** With a store that holds nothing the model [resolveAndValidate]
    returns has the text of an empty array literal, not the
    placeholder. *)
Lemma empty_store_is_not_seeded_witness :
  getValue (createModel Reference.host (orElse None "[]")) = "[]"
  /\ snd (run (resolveAndValidate Reference.host) (world emptyDisk))
     = validate Reference.host (createModel Reference.host "[]")
  /\ forall model,
       snd (run (resolveAndValidate Reference.host) (world emptyDisk))
       = Ok model ->
       getValue model <> getEmptyContent (getEOL model).
Proof.
  apply (empty_store_is_not_seeded Reference.host (world emptyDisk) None).
  - reflexivity.
  - reflexivity.
Defined.

(** A write rejected by a read-only store: the model of the request
    stays created, neither disposed nor destroyed. *)
Lemma rejected_write_leaves_model_witness :
  snd (run (cycle Reference.host (RemoveKeybinding userC)) readOnlyWorld)
  = Throw (HostError 1)
  /\ countModel Created
       (log (fst (run (cycle Reference.host (RemoveKeybinding userC))
                    readOnlyWorld))) = 1
  /\ countModel Disposed
       (log (fst (run (cycle Reference.host (RemoveKeybinding userC))
                    readOnlyWorld))) = 0
  /\ countModel Destroyed
       (log (fst (run (cycle Reference.host (RemoveKeybinding userC))
                    readOnlyWorld))) = 0
  /\ liveModels
       (fst (run (cycle Reference.host (RemoveKeybinding userC))
               readOnlyWorld)) = 1.
Proof.
  edestruct (rejected_write_leaves_model Reference.contextKeys Reference.host
               (RemoveKeybinding userC) readOnlyWorld)
    as (A & B & C & D & E).
  - reflexivity.
  - vm_compute. reflexivity.
  - vm_compute. reflexivity.
  - vm_compute. reflexivity.
  - split; [exact A|]. split; [exact C|]. split; [exact D|].
    split; [exact E|]. unfold liveModels. rewrite C, E. reflexivity.
Defined.

(** A reset request for the user binding of a command leaves the entry
    of the same command under another when. *)
Lemma reset_keeps_entry_with_other_when :
  isDefault userC = false
  /\ itemCommand userC = Some "c"
  /\ userKeybindingEntriesOf Reference.host otherWhenLast
     = Ok [{| key := "b"; command := "c"; when := None |};
           {| key := "a"; command := "c"; when := Some "x" |}]
  /\ snd (run (doResetKeybinding Reference.host userC)
            (world (disk otherWhenLast)))
     = Ok tt
  /\ exists text,
       Reference.file
         (store (fst (run (doResetKeybinding Reference.host userC)
                        (world (disk otherWhenLast)))))
       = Some text
       /\ userKeybindingEntriesOf Reference.host text
          = Ok [{| key := "a"; command := "c"; when := Some "x" |}].
Proof.
  split; [reflexivity|]. split; [reflexivity|].
  split; [vm_compute; reflexivity|]. split; [vm_compute; reflexivity|].
  eexists. split; [vm_compute; reflexivity | vm_compute; reflexivity].
Qed.

Lemma reset_removes_first_match_and_negations_witness :
  exists text,
    writes (log (fst (run (cycle Reference.host (ResetKeybinding userC))
                        (world (disk shadowed)))))
    = (writes (log (world (disk shadowed))) ++ [text])%list
    /\ snd (run (cycle Reference.host (ResetKeybinding userC))
              (world (disk shadowed)))
       = fst (write Reference.host text (store (world (disk shadowed))))
    /\ userKeybindingEntriesOf Reference.host text
       = Ok (filter (fun kb => negb (isNegationOf userC kb))
               (removeAt (findUserKeybindingEntryIndex userC shadowedEntries)
                  shadowedEntries))
    /\ Forall (fun kb => command kb <> negated (itemCommand userC))
         (filter (fun kb => negb (isNegationOf userC kb))
            (removeAt (findUserKeybindingEntryIndex userC shadowedEntries)
               shadowedEntries)).
Proof.
  apply (reset_removes_first_match_and_negations Reference.contextKeys
           Reference.host userC (world (disk shadowed)) shadowedModel
           shadowedEntries).
  - reflexivity.
  - vm_compute. reflexivity.
  - vm_compute. reflexivity.
  - intros _. vm_compute. reflexivity.
  - intros model1 R. vm_compute in R. injection R as <-.
    vm_compute. repeat split.
Defined.



(** * Further properties *)

(** ** The matchers *)

Section MatcherMore.

Variable K : ContextKeys.

Implicit Types (item : ResolvedKeybindingItem K)
  (kb : IUserFriendlyKeybinding).

Lemma unassigned_from_spec item entries : forall (index i : Z),
  In i (findUnassignedDefaultKeybindingEntryIndexFrom item entries index)
  <-> exists n kb,
        i = (index + Z.of_nat n)%Z
        /\ nth_error entries n = Some kb
        /\ command kb = negated (itemCommand item).
Proof.
  induction entries as [|kb rest IH]; intros index i; simpl.
  - split; [contradiction|]. intros (n & kb & _ & N & _).
    destruct n; discriminate.
  - destruct (command kb =? negated (itemCommand item)) eqn:E.
    + apply String.eqb_eq in E. simpl. rewrite IH. split.
      * intros [<- | (n & kb' & -> & N & C)].
        -- exists 0, kb. split; [lia|]. split; [reflexivity | exact E].
        -- exists (S n), kb'. split; [lia|]. split; [exact N | exact C].
      * intros ([|n] & kb' & -> & N & C).
        -- left. lia.
        -- right. exists n, kb'. split; [lia|]. split; [exact N | exact C].
    + apply String.eqb_neq in E. rewrite IH. split.
      * intros (n & kb' & -> & N & C).
        exists (S n), kb'. split; [lia|]. split; [exact N | exact C].
      * intros ([|n] & kb' & -> & N & C).
        -- simpl in N. injection N as <-. contradiction.
        -- exists n, kb'. split; [lia|]. split; [exact N | exact C].
Qed.

Lemma unassigned_from_sorted item entries : forall index : Z,
  StronglySorted Z.lt
    (findUnassignedDefaultKeybindingEntryIndexFrom item entries index).
Proof.
  induction entries as [|kb rest IH]; intros index; simpl.
  - constructor.
  - destruct (command kb =? negated (itemCommand item)).
    + constructor; [apply IH|].
      apply Forall_forall. intros i In.
      apply unassigned_from_spec in In.
      destruct In as (n & kb' & -> & _). lia.
    + apply IH.
Qed.

(** X1.  [findUnassignedDefaultKeybindingEntryIndex] returns exactly
    the indices of the entries whose command is the negated command of
    the binding (a minus sign, then the command, "null" for a null
    command), whatever their when and key; it returns them in
    increasing order, each of them an index of the list. *)
Theorem unassigned_indices_are_the_negation_entries item entries :
  (forall i,
     In i (findUnassignedDefaultKeybindingEntryIndex item entries)
     <-> exists n kb,
           i = Z.of_nat n
           /\ nth_error entries n = Some kb
           /\ command kb = negated (itemCommand item))
  /\ StronglySorted Z.lt
       (findUnassignedDefaultKeybindingEntryIndex item entries)
  /\ Forall (fun i => (0 <= i < Z.of_nat (List.length entries))%Z)
       (findUnassignedDefaultKeybindingEntryIndex item entries).
Proof.
  split; [|split].
  - intros i. apply (unassigned_from_spec item entries 0%Z i).
  - apply unassigned_from_sorted.
  - apply Forall_forall. intros i In.
    apply (unassigned_from_spec item entries 0%Z i) in In.
    destruct In as (n & kb & -> & N & _).
    assert (n < List.length entries) by (apply nth_error_Some; congruence).
    lia.
Qed.

Lemma findFrom_range item entries : forall index,
  findUserKeybindingEntryIndexFrom item entries index = (-1)%Z
  \/ (index <= findUserKeybindingEntryIndexFrom item entries index
      < index + Z.of_nat (List.length entries))%Z.
Proof.
  intros index.
  destruct (findFrom_spec K item entries index)
    as [[R _] | (i & kb & R & N & _)].
  - now left.
  - right. rewrite R.
    assert (i < List.length entries) by (apply nth_error_Some; congruence).
    lia.
Qed.

Lemma findFrom_shift item entries : forall index, (0 <= index)%Z ->
  findUserKeybindingEntryIndexFrom item entries index
  = if (findUserKeybindingEntryIndex item entries =? -1)%Z then (-1)%Z
    else (index + findUserKeybindingEntryIndex item entries)%Z.
Proof.
  unfold findUserKeybindingEntryIndex.
  induction entries as [|kb rest IH]; intros index L.
  - reflexivity.
  - rewrite !find_step. destruct (matchesEntry item kb).
    + simpl. lia.
    + rewrite (IH (index + 1)%Z) by lia. rewrite (IH (0 + 1)%Z) by lia.
      destruct (findFrom_range item rest 0%Z) as [R | R].
      * rewrite R. reflexivity.
      * destruct (Z.eqb_spec (findUserKeybindingEntryIndexFrom item rest 0)
                    (-1)); [lia|].
        destruct (Z.eqb_spec
                    (0 + 1 + findUserKeybindingEntryIndexFrom item rest 0)
                    (-1)); lia.
Qed.

(** X2.  The entry matcher on two lists one after the other: the index
    it finds in the first, if it finds one; otherwise the index it
    finds in the second, moved by the length of the first; otherwise
    -1.  Entries appended to a document never change the entry an
    operation finds. *)
Theorem findUserKeybindingEntryIndex_app item entries entries' :
  findUserKeybindingEntryIndex item (entries ++ entries')
  = if (findUserKeybindingEntryIndex item entries =? -1)%Z then
      if (findUserKeybindingEntryIndex item entries' =? -1)%Z then (-1)%Z
      else (Z.of_nat (List.length entries)
            + findUserKeybindingEntryIndex item entries')%Z
    else findUserKeybindingEntryIndex item entries.
Proof.
  assert (G : forall index, (0 <= index)%Z ->
    findUserKeybindingEntryIndexFrom item (entries ++ entries') index
    = if (findUserKeybindingEntryIndexFrom item entries index =? -1)%Z
      then findUserKeybindingEntryIndexFrom item entries'
             (index + Z.of_nat (List.length entries))
      else findUserKeybindingEntryIndexFrom item entries index).
  { induction entries as [|kb rest IH]; intros index L.
    - simpl. now rewrite Z.add_0_r.
    - cbn [app]. rewrite !find_step. destruct (matchesEntry item kb).
      + destruct (Z.eqb_spec index (-1)); [lia | reflexivity].
      + rewrite IH by lia. cbn [List.length].
        replace (index + 1 + Z.of_nat (List.length rest))%Z
          with (index + Z.of_nat (S (List.length rest)))%Z by lia.
        reflexivity. }
  unfold findUserKeybindingEntryIndex at 1. rewrite G by lia.
  fold (findUserKeybindingEntryIndex item entries).
  destruct (findUserKeybindingEntryIndex item entries =? -1)%Z;
    [|reflexivity].
  apply findFrom_shift. lia.
Qed.

Lemma matchesEntry_same item item' kb kb' :
  sameBinding item item' -> sameEntry K kb kb' ->
  matchesEntry item kb = matchesEntry item' kb'.
Proof.
  intros [C W] (Ck & T & Cw). unfold matchesEntry.
  rewrite <- C, <- Ck, <- T.
  destruct (itemCommand item) as [c|]; [|reflexivity].
  f_equal.
  assert (S : isSome (itemWhen item) = isSome (itemWhen item')).
  { destruct (itemWhen item), (itemWhen item'); simpl in *;
      congruence. }
  rewrite <- S. f_equal.
  unfold canonicalWhen in Cw.
  destruct (when kb) as [w|], (when kb') as [w'|]; simpl in T;
    destruct (itemWhen item) as [t|], (itemWhen item') as [t'|];
    simpl in W; try discriminate; try reflexivity.
  - rewrite <- T. destruct (truthy w) eqn:Tw; [|reflexivity].
    rewrite <- T in Cw. simpl. injection W as W.
    destruct (deserialize K w) as [e|], (deserialize K w') as [e'|];
      simpl in Cw; try discriminate; try reflexivity.
    injection Cw as Cw. now rewrite Cw, W.
  - rewrite T. reflexivity.
  - now rewrite <- T.
Qed.

(** X3.  The matcher reads of an entry its command and its when, and
    of the binding its command and the serialization of its when: for
    two bindings with the same command and whens that serialize alike,
    and two lists whose entries have, one by one, the same command and
    whens that are both absent or canonicalize to the same text, it
    returns the same index.  Keys, labels and the origin of the binding
    play no part, nor does the way a when is written. *)
Theorem matcher_cannot_tell_equivalent_whens item item' entries entries' :
  sameBinding item item' ->
  Forall2 (sameEntry K) entries entries' ->
  findUserKeybindingEntryIndex item entries
  = findUserKeybindingEntryIndex item' entries'.
Proof.
  intros B F. unfold findUserKeybindingEntryIndex. generalize 0%Z.
  induction F as [|kb kb' rest rest' E F IH]; intros index.
  - reflexivity.
  - rewrite !find_step, (matchesEntry_same item item' kb kb' B E), IH.
    reflexivity.
Qed.

End MatcherMore.

(** ** Validation *)

Section ValidationMore.

Variable H : Host.

(** X6.  When [resolveAndValidate] lets a model through, it has removed
    nothing: the text of the model it returns is the text it was given,
    followed by nothing, by the line terminator and an empty array
    literal, or (the text given being empty) by the placeholder; the
    line terminator and the options of the model are kept. *)
Theorem validate_keeps_text (model model' : ITextModel) :
  validate H model = Ok model' ->
  EOL model' = EOL model
  /\ options model' = options model
  /\ exists suffix,
       getValue model' = getValue model ++ suffix
       /\ (suffix = ""
           \/ suffix = getEOL model ++ "[]"
           \/ (getValue model = ""
               /\ suffix = getEmptyContent (getEOL model))).
Proof.
  rewrite validate_unfold.
  destruct (truthy (getValue model)) eqn:T.
  - destruct (0 <? _)%nat; [discriminate|].
    destruct (truthy_json _).
    + destruct (negb _); [discriminate|]. intros [= <-].
      split; [reflexivity|]. split; [reflexivity|].
      exists "". split; [now rewrite append_empty | now left].
    + intros [= <-]. split; [reflexivity|]. split; [reflexivity|].
      exists (getEOL model ++ "[]"). split; [reflexivity|]. right. now left.
  - apply truthy_false in T. intros [= <-].
    split; [reflexivity|]. split; [reflexivity|].
    exists (getEmptyContent (getEOL model)).
    split; [|right; right; split; [exact T | reflexivity]].
    change (getValue (setValue model (getEmptyContent (getEOL model))))
      with (getEmptyContent (getEOL model)).
    now rewrite T.
Qed.

End ValidationMore.

Section CyclesMore.

Variable K : ContextKeys.
Variable H : Host.

(** X7.  A cycle whose promise is fulfilled has done, in this order and
    nothing else: one read, the creation of one model, one write of the
    text of the patched model, the disposal of the model and its
    removal from the model service. *)
Theorem fulfilled_cycle_reads_writes_and_releases (r : Request K)
    (w : World H) :
  snd (run (cycle H r) w) = Ok tt ->
  exists stored model model',
    read H (store w) = Ok stored
    /\ validate H (createModel H (orElse stored "[]")) = Ok model
    /\ patches H r model = Ok model'
    /\ log (fst (run (cycle H r) w))
       = (log w ++ [DidRead; DidModel Created; DidWrite (getValue model');
                    DidModel Disposed; DidModel Destroyed])%list
    /\ store (fst (run (cycle H r) w))
       = snd (write H (getValue model') (store w)).
Proof.
  rewrite run_cycle.
  destruct (read H (store w)) as [stored | e] eqn:R; [|discriminate].
  destruct (validate H _) as [model | e] eqn:V; [|discriminate].
  destruct (patches H r model) as [model' | e] eqn:P; [|discriminate].
  rewrite run_save. cbn [resolved record store log].
  destruct (write H (getValue model') (store w)) as [[[] | e] s] eqn:W;
    [|discriminate].
  intros _. exists stored, model, model'.
  split; [reflexivity|]. split; [exact V|]. split; [exact P|].
  cbn [fst snd log store]. rewrite <- !app_assoc, W. split; reflexivity.
Qed.

(** X8.  When the read succeeds and the validation or a patch fails, the
    promise is rejected with that error and the store is as it was, but
    the model created for the operation stays: the cycle has read,
    created the model, and done nothing else. *)
Theorem failure_before_persist_leaves_model (r : Request K) (w : World H)
    (stored : option string) (e : Error) :
  read H (store w) = Ok stored ->
  (validate H (createModel H (orElse stored "[]")) = Throw e
   \/ exists model,
        validate H (createModel H (orElse stored "[]")) = Ok model
        /\ patches H r model = Throw e) ->
  snd (run (cycle H r) w) = Throw e
  /\ log (fst (run (cycle H r) w))
     = (log w ++ [DidRead; DidModel Created])%list
  /\ store (fst (run (cycle H r) w)) = store w.
Proof.
  intros R F. rewrite run_cycle, R.
  destruct F as [V | (model & V & P)]; rewrite V; [|rewrite P];
    cbn [fst snd resolved record log store]; rewrite <- !app_assoc;
    repeat split; reflexivity.
Qed.

(** X9.  A reset request for a default binding patches nothing: when
    the model created for the stored document (the stored text, its
    line breaks written as the line terminator of the model) parses
    without errors to an array, the text written to the store is the
    text of that model, and the outcome of the write is the outcome of
    the promise. *)
Theorem reset_of_default_writes_document_back
    (item : ResolvedKeybindingItem K) (w : World H) (text : string) :
  isDefault item = true ->
  read H (store w) = Ok (Some text) ->
  text <> "" ->
  snd (json_parse H (getValue (createModel H text))) = [] ->
  isArray (fst (json_parse H (getValue (createModel H text)))) = true ->
  writes (log (fst (run (cycle H (ResetKeybinding item)) w)))
  = (writes (log w) ++ [getValue (createModel H text)])%list
  /\ snd (run (cycle H (ResetKeybinding item)) w)
     = fst (write H (getValue (createModel H text)) (store w))
  /\ store (fst (run (cycle H (ResetKeybinding item)) w))
     = snd (write H (getValue (createModel H text)) (store w)).
Proof.
  intros D R N E A. rewrite run_cycle, R.
  assert (C : orElse (Some text) "[]" = text).
  { simpl. apply truthy_true in N. now rewrite N. }
  rewrite C.
  assert (V : validate H (createModel H text) = Ok (createModel H text)).
  { rewrite validate_unfold. unfold parse.
    assert (T : truthy (getValue (createModel H text)) = true).
    { apply truthy_true. rewrite <- C. apply created_never_empty. }
    rewrite T, E. cbn [List.length Nat.ltb Nat.leb].
    destruct (fst (json_parse H (getValue (createModel H text)))) as [[]|];
      try discriminate.
    reflexivity. }
  rewrite V. cbn [patches]. unfold resetPatches. rewrite D. cbn [negb].
  rewrite run_save. cbn [resolved record store log].
  destruct (write H (getValue (createModel H text)) (store w))
    as [[[] | e] s];
    cbn [fst snd log store]; rewrite !writes_app; cbn;
    rewrite ?app_nil_r; repeat split; reflexivity.
Qed.

End CyclesMore.

(** ** Entries after the patches *)

Section PatchesMore.

Variable K : ContextKeys.
Variable H : Host.

Lemma found_index (item : ResolvedKeybindingItem K)
    (entries : list IUserFriendlyKeybinding) :
  findUserKeybindingEntryIndex item entries <> (-1)%Z ->
  exists i kb,
    findUserKeybindingEntryIndex item entries = Z.of_nat i
    /\ nth_error entries i = Some kb
    /\ entryMatches item kb.
Proof.
  intros N.
  destruct (findFrom_spec K item entries 0%Z)
    as [[R _] | (i & kb & R & Nth & M & _)].
  - contradiction.
  - exists i, kb. split; [exact R|]. split; [exact Nth | exact M].
Qed.

Lemma length_removeAt {A : Type} (i : nat) (l : list A) :
  i < List.length l ->
  List.length (removeAt (Z.of_nat i) l) + 1 = List.length l.
Proof.
  intros L. unfold removeAt.
  destruct (Z.ltb_spec (Z.of_nat i) 0); [lia|].
  rewrite Nat2Z.id, length_app, length_firstn, length_skipn. lia.
Qed.

(** X10.  A remove request for a binding that is not a default binding:
    when no entry matches, the model is left as it is; when one
    matches, with an editor that removes the element it is asked to
    remove, the entries of the document are the former ones without the
    first match, one fewer. *)
Theorem remove_of_user_binding_removes_first_match
    (item : ResolvedKeybindingItem K) (model : ITextModel)
    (entries : list IUserFriendlyKeybinding) :
  isDefault item = false ->
  userKeybindingEntriesOf H (getValue model) = Ok entries ->
  (findUserKeybindingEntryIndex item entries = (-1)%Z ->
   removePatches H item model = Ok model)
  /\ (findUserKeybindingEntryIndex item entries <> (-1)%Z ->
      removesElement H (getValue model)
        (findUserKeybindingEntryIndex item entries) (formatting model) ->
      exists model',
        removePatches H item model = Ok model'
        /\ userKeybindingEntriesOf H (getValue model')
           = Ok (removeAt (findUserKeybindingEntryIndex item entries)
                   entries)
        /\ List.length
             (removeAt (findUserKeybindingEntryIndex item entries) entries)
           + 1 = List.length entries).
Proof.
  intros D E. unfold removePatches, removeUserKeybinding.
  rewrite D, E. cbn [bind]. split.
  - intros ->. reflexivity.
  - intros N C.
    destruct (array_of_entries H _ _ E) as (items & A & As).
    unfold removesElement in C. rewrite A in C.
    apply Z.eqb_neq in N. rewrite N. cbn [negb].
    destruct (setProperty H (getValue model) _ None (formatting model))
      as [[|edit edits] | e]; try contradiction.
    cbn [bind]. change (nth_error (edit :: edits) 0) with (Some edit).
    rewrite applyEditsToBuffer_patched.
    exists (setValue model (patched edit (getValue model))).
    split; [reflexivity|]. split.
    + apply (entries_of_array H _ _ _ C).
      now apply asEntries_removeAt.
    + apply Z.eqb_neq in N.
      destruct (found_index item entries N) as (i & kb & -> & Nth & _).
      apply length_removeAt. apply nth_error_Some. congruence.
Qed.

(** What [removeDefaultKeybinding] does for a binding with a label,
    with an editor that appends. *)
Lemma removeDefaultKeybinding_appends (item : ResolvedKeybindingItem K)
    (label c : string) (model : ITextModel)
    (entries : list IUserFriendlyKeybinding) :
  resolvedLabel item = Some label ->
  label <> "" ->
  itemCommand item = Some c ->
  c <> "" ->
  userKeybindingEntriesOf H (getValue model) = Ok entries ->
  appendsElement H (getValue model)
    (asObject label (Some c) (option_map (serialize K) (itemWhen item)) true)
    (formatting model) ->
  exists model',
    removeDefaultKeybinding H item model = Ok model'
    /\ userKeybindingEntriesOf H (getValue model')
       = Ok (entries ++ [negationEntry item label c])%list.
Proof.
  intros L Ln C Cn Em Am.
  destruct (array_of_entries H _ _ Em) as (items & A & As).
  unfold appendsElement in Am. rewrite A in Am.
  unfold removeDefaultKeybinding. unfold resolvedLabel in L.
  destruct (resolvedKeybinding item) as [rk|]; [|discriminate].
  rewrite L. apply truthy_true in Ln. rewrite Ln, C.
  destruct (setProperty H (getValue model) [Index (-1)] _ (formatting model))
    as [[|edit edits] | e]; try contradiction.
  cbn [bind]. change (nth_error (edit :: edits) 0) with (Some edit).
  rewrite applyEditsToBuffer_patched.
  exists (setValue model (patched edit (getValue model))).
  split; [reflexivity|].
  apply (entries_of_array H _ _ _ Am).
  rewrite asEntries_app, As. cbn [asEntries].
  rewrite (asEntry_asObject label c _ true Cn). reflexivity.
Qed.

Lemma updateKeybinding_appends (item : ResolvedKeybindingItem K)
    (key c : string) (when : option string) (model : ITextModel)
    (entries : list IUserFriendlyKeybinding) :
  itemCommand item = Some c ->
  c <> "" ->
  userKeybindingEntriesOf H (getValue model) = Ok entries ->
  appendsElement H (getValue model) (asObject key (Some c) when false)
    (formatting model) ->
  exists text,
    updateKeybinding H item key when model (-1) = Ok (setValue model text)
    /\ userKeybindingEntriesOf H text
       = Ok (entries
             ++ [{| key := key; command := c;
                    when := writtenWhen when |}])%list.
Proof.
  intros C Cn Em Am.
  destruct (array_of_entries H _ _ Em) as (items & A & As).
  unfold appendsElement in Am. rewrite A in Am.
  unfold updateKeybinding. cbn [Z.eqb negb]. rewrite C.
  destruct (setProperty H (getValue model) [Index (-1)] _ (formatting model))
    as [[|edit edits] | e]; try contradiction.
  cbn [bind]. change (nth_error (edit :: edits) 0) with (Some edit).
  rewrite applyEditsToBuffer_patched.
  exists (patched edit (getValue model)).
  split; [reflexivity|].
  apply (entries_of_array H _ _ _ Am).
  rewrite asEntries_app, As. cbn [asEntries].
  rewrite (asEntry_asObject key c _ false Cn). reflexivity.
Qed.

(** X11.  An assign request that matches no user entry, for a binding
    that is not a default binding with a label and whose command is not
    empty, with an editor that appends: the entries of the document are
    the former ones followed by exactly one new entry with the new key,
    the command of the binding and the new when (left out if
    empty). *)
Theorem assign_without_user_entry_appends_one
    (item : ResolvedKeybindingItem K) (key c : string) (when : option string)
    (model : ITextModel) (entries : list IUserFriendlyKeybinding) :
  isDefault item && truthy_opt (resolvedLabel item) = false ->
  itemCommand item = Some c ->
  c <> "" ->
  userKeybindingEntriesOf H (getValue model) = Ok entries ->
  findUserKeybindingEntryIndex item entries = (-1)%Z ->
  appendsElement H (getValue model) (asObject key (Some c) when false)
    (formatting model) ->
  exists model',
    editPatches H item key when model = Ok model'
    /\ userKeybindingEntriesOf H (getValue model')
       = Ok (entries
             ++ [{| key := key; command := c;
                    when := writtenWhen when |}])%list.
Proof.
  intros D C Cn E F A.
  destruct (updateKeybinding_appends item key c when model entries C Cn E A)
    as (text & U & E').
  exists (setValue model text). split; [|exact E'].
  unfold editPatches. rewrite E. cbn [bind]. rewrite F, U. cbn [bind].
  destruct (isDefault item); simpl in D |- *.
  - destruct (isSome (resolvedKeybinding item)); [|reflexivity].
    now apply removeDefaultKeybinding_no_label.
  - reflexivity.
Qed.

(** X12.  An assign request that matches no user entry, for a default
    binding with a label and a command that are not empty, with an
    editor that appends: the entries of the document are the former
    ones followed by the override entry and then the negation entry,
    two more. *)
Theorem assign_of_default_without_user_entry_appends_two
    (item : ResolvedKeybindingItem K) (key label c : string)
    (when : option string) (model model1 : ITextModel)
    (entries : list IUserFriendlyKeybinding) :
  isDefault item = true ->
  resolvedLabel item = Some label ->
  label <> "" ->
  itemCommand item = Some c ->
  c <> "" ->
  userKeybindingEntriesOf H (getValue model) = Ok entries ->
  findUserKeybindingEntryIndex item entries = (-1)%Z ->
  appendsElement H (getValue model) (asObject key (Some c) when false)
    (formatting model) ->
  updateKeybinding H item key when model (-1) = Ok model1 ->
  appendsElement H (getValue model1)
    (asObject label (Some c) (option_map (serialize K) (itemWhen item)) true)
    (formatting model1) ->
  exists model',
    editPatches H item key when model = Ok model'
    /\ userKeybindingEntriesOf H (getValue model')
       = Ok (entries
             ++ [{| key := key; command := c; when := writtenWhen when |};
                 negationEntry item label c])%list.
Proof.
  intros D L Ln C Cn E F A U A1.
  destruct (updateKeybinding_appends item key c when model entries C Cn E A)
    as (text & U' & E1).
  rewrite U in U'. injection U' as ->.
  destruct (removeDefaultKeybinding_appends item label c
              (setValue model text) _ L Ln C Cn E1 A1)
    as (model' & R & E').
  exists model'. split.
  - unfold editPatches. rewrite E. cbn [bind]. rewrite F, U. cbn [bind].
    rewrite D. unfold resolvedLabel in L.
    destruct (resolvedKeybinding item); [|discriminate]. exact R.
  - rewrite E', <- app_assoc. reflexivity.
Qed.


Lemma replaceAt_split {A : Type} (n : nat) (y : A) (l : list A) :
  nth_error l n = Some y ->
  exists pre post,
    l = (pre ++ y :: post)%list
    /\ List.length pre = n
    /\ forall x, replaceAt (Z.of_nat n) x l = (pre ++ x :: post)%list.
Proof.
  intros N. destruct (nth_error_split l n N) as (pre & post & -> & L).
  exists pre, post. split; [reflexivity|]. split; [exact L|].
  intros x. unfold replaceAt.
  destruct (Z.ltb_spec (Z.of_nat n) 0); [lia|].
  rewrite Nat2Z.id, <- L.
  rewrite skipn_app, skipn_all, Nat.sub_diag. cbn [skipn app].
  rewrite firstn_app, firstn_all, Nat.sub_diag. cbn [firstn].
  now rewrite app_nil_r.
Qed.

Lemma nth_error_middle {A : Type} (pre post : list A) (y : A) :
  nth_error (pre ++ y :: post) (List.length pre) = Some y.
Proof. induction pre; simpl; auto. Qed.

Lemma asEntries_middle (pre post : list Json) (v : Json)
    (entries : list IUserFriendlyKeybinding) :
  asEntries (pre ++ v :: post) = Some entries ->
  exists epre e epost,
    entries = (epre ++ e :: epost)%list
    /\ List.length epre = List.length pre
    /\ asEntry v = Some e
    /\ forall v' e', asEntry v' = Some e' ->
         asEntries (pre ++ v' :: post) = Some (epre ++ e' :: epost)%list.
Proof.
  revert entries. induction pre as [|u pre IH]; intros entries E; simpl in E.
  - destruct (asEntry v) as [e|]; [|discriminate].
    destruct (asEntries post) as [epost|] eqn:P; [|discriminate].
    injection E as <-. exists [], e, epost.
    split; [reflexivity|]. split; [reflexivity|]. split; [reflexivity|].
    intros v' e' E'. simpl. now rewrite E', P.
  - destruct (asEntry u) as [eu|] eqn:U; [|discriminate].
    destruct (asEntries (pre ++ v :: post)) as [es|] eqn:R; [|discriminate].
    injection E as <-.
    destruct (IH es eq_refl) as (epre & e & epost & -> & L & V & F).
    exists (eu :: epre), e, epost.
    split; [reflexivity|]. split; [simpl; now rewrite L|].
    split; [exact V|].
    intros v' e' E'. simpl. now rewrite U, (F v' e' E').
Qed.

Lemma app_middle_inj {A : Type} (pre pre' post post' : list A) (y y' : A) :
  List.length pre = List.length pre' ->
  (pre ++ y :: post = pre' ++ y' :: post')%list ->
  pre = pre' /\ y = y' /\ post = post'.
Proof.
  revert pre'. induction pre as [|a pre IH]; intros [|a' pre'] L E;
    simpl in *; try discriminate.
  - injection E as -> ->. repeat split.
  - injection E as -> E. destruct (IH pre' ltac:(lia) E) as (-> & -> & ->).
    repeat split.
Qed.

Lemma asEntry_lookups (props : list (string * Json))
    (e : IUserFriendlyKeybinding) :
  asEntry (JObject props) = Some e <->
  lookupProperty "key" props = Some (JString (key e))
  /\ lookupProperty "command" props = Some (JString (command e))
  /\ lookupProperty "when" props = option_map JString (when e).
Proof.
  unfold asEntry. split.
  - destruct (lookupProperty "key" props) as [[]|]; try discriminate.
    destruct (lookupProperty "command" props) as [[]|]; try discriminate.
    destruct (lookupProperty "when" props) as [[]|]; try discriminate;
      intros [= <-]; repeat split.
  - intros (-> & -> & ->). destruct e as [k c [w|]]; reflexivity.
Qed.

(** What [updateKeybinding] does to the entry at the index the matcher
    found, with an editor that sets the property it is asked to set. *)
Lemma updateKeybinding_sets
    (item : ResolvedKeybindingItem K) (key : string) (when : option string)
    (model : ITextModel) (entries : list IUserFriendlyKeybinding)
    (e1 : Edit) (rest1 : list Edit) :
  userKeybindingEntriesOf H (getValue model) = Ok entries ->
  findUserKeybindingEntryIndex item entries <> (-1)%Z ->
  setProperty H (getValue model)
    [Index (findUserKeybindingEntryIndex item entries); Property "key"]
    (Some (JString key)) (formatting model) = Ok (e1 :: rest1) ->
  setsProperty H (getValue model)
    (findUserKeybindingEntryIndex item entries) "key" (Some (JString key))
    (formatting model) ->
  setsProperty H (patched e1 (getValue model))
    (findUserKeybindingEntryIndex item entries) "when"
    (option_map JString when) (formatting model) ->
  exists text matched,
    updateKeybinding H item key when model
      (findUserKeybindingEntryIndex item entries)
    = Ok (setValue model text)
    /\ nth_error entries
         (Z.to_nat (findUserKeybindingEntryIndex item entries))
       = Some matched
    /\ entryMatches item matched
    /\ userKeybindingEntriesOf H text
       = Ok (replaceAt (findUserKeybindingEntryIndex item entries)
               {| key := key; command := command matched; when := when |}
               entries).
Proof.
  intros E F S1 C1 C2.
  destruct (found_index item entries F) as (i & kb & Fi & Nth & M).
  rewrite Fi in *. rewrite Nat2Z.id.
  destruct (array_of_entries H _ _ E) as (items & A & As).
  unfold setsProperty in C1. rewrite A, S1 in C1.
  destruct C1 as (props & props1 & _ & N1 & A1 & K1 & O1).
  rewrite Nat2Z.id in N1.
  destruct (replaceAt_split i _ items N1) as (pre & post & -> & Lp & Rp).
  rewrite Rp in A1.
  destruct (asEntries_middle pre post _ entries As)
    as (epre & e & epost & -> & Le & V & Fe).
  assert (e = kb).
  { rewrite <- Lp, <- Le, nth_error_middle in Nth. congruence. }
  subst e. apply asEntry_lookups in V. destruct V as (Vk & Vc & Vw).
  assert (Final : exists text props2,
    (edits <- setProperty H (patched e1 (getValue model))
                [Index (Z.of_nat i); Property "when"]
                (option_map JString when) (formatting model) ;;
     if (0 <? List.length edits)%nat
     then applyEditsToBuffer (nth_error edits 0)
            (setValue model (patched e1 (getValue model)))
     else Ok (setValue model (patched e1 (getValue model))))
    = Ok (setValue model text)
    /\ arrayOf H text = Some (pre ++ JObject props2 :: post)%list
    /\ lookupProperty "when" props2 = option_map JString when
    /\ forall other, other <> "when" ->
         lookupProperty other props2 = lookupProperty other props1).
  { unfold setsProperty in C2. rewrite A1 in C2.
    destruct (setProperty H (patched e1 (getValue model)) _ _ _)
      as [[|e2 rest2] | err]; try contradiction.
    - destruct C2 as (Wn & props' & _ & N2 & L2).
      rewrite Nat2Z.id, <- Lp, nth_error_middle in N2. injection N2 as <-.
      exists (patched e1 (getValue model)), props1.
      split; [reflexivity|]. split; [exact A1|].
      split; [now rewrite L2, Wn | reflexivity].
    - destruct C2 as (props' & props2 & _ & N2 & A2 & K2 & O2).
      rewrite Nat2Z.id, <- Lp, nth_error_middle in N2. injection N2 as <-.
      destruct (replaceAt_split i (JObject props1)
                  (pre ++ JObject props1 :: post))
        as (pre' & post' & Eq & Lp' & Rp').
      { rewrite <- Lp. apply nth_error_middle. }
      apply app_middle_inj in Eq; [|lia]. destruct Eq as (<- & _ & <-).
      rewrite Rp' in A2.
      exists (patched e2 (patched e1 (getValue model))), props2.
      split; [|split; [exact A2 | split; [exact K2 | exact O2]]].
      cbn [bind]. change (nth_error (e2 :: rest2) 0) with (Some e2).
      cbn [List.length Nat.ltb Nat.leb].
      now rewrite applyEditsToBuffer_patched. }
  destruct Final as (text & props2 & Run & A2 & K2 & O2).
  exists text, kb.
  split; [|split; [exact Nth | split; [exact M|]]].
  - unfold updateKeybinding.
    assert (Ne : (Z.of_nat i =? -1)%Z = false) by (apply Z.eqb_neq; lia).
    rewrite Ne. cbn [negb]. rewrite S1. cbn [bind].
    change (nth_error (e1 :: rest1) 0) with (Some e1).
    rewrite applyEditsToBuffer_patched. cbn [bind].
    change (getValue (setValue model (patched e1 (getValue model))))
      with (patched e1 (getValue model)).
    exact Run.
  - apply (entries_of_array H _ _ _ A2).
    destruct (replaceAt_split i kb (epre ++ kb :: epost))
      as (epre' & epost' & Eq & Lp' & Rp').
    { rewrite <- Lp, <- Le. apply nth_error_middle. }
    apply app_middle_inj in Eq; [|lia]. destruct Eq as (<- & _ & <-).
    rewrite Rp'. apply Fe. apply asEntry_lookups. simpl.
    split; [|split].
    + rewrite O2 by discriminate. exact K1.
    + rewrite O2, O1 by discriminate. exact Vc.
    + exact K2.
Qed.

Lemma lookupProperty_skip (other name : string) (v : Json)
    (props : list (string * Json)) :
  other <> name ->
  lookupProperty other ((name, v) :: props) = lookupProperty other props.
Proof.
  intros N. simpl. destruct (lookupProperty other props); [reflexivity|].
  destruct (String.eqb_spec name other); congruence.
Qed.

Lemma lookupProperty_under (other name : string) (v : Json)
    (props props' : list (string * Json)) :
  lookupProperty other props = lookupProperty other props' ->
  lookupProperty other ((name, v) :: props)
  = lookupProperty other ((name, v) :: props').
Proof. intros E. simpl. now rewrite E. Qed.

(** X13.  An assign request that matches a user entry, for a binding
    that is not a default binding with a label, with an editor that
    sets the property it is asked to set and leaves the others: the
    entries of the document are the former ones, in their order, the
    first match having the new key and the new when (none, if the new
    when is undefined) and its command as before. *)
Theorem assign_on_user_entry_sets_key_and_when
    (item : ResolvedKeybindingItem K) (key : string) (when : option string)
    (model : ITextModel) (entries : list IUserFriendlyKeybinding)
    (e1 : Edit) (rest1 : list Edit) :
  isDefault item && truthy_opt (resolvedLabel item) = false ->
  userKeybindingEntriesOf H (getValue model) = Ok entries ->
  findUserKeybindingEntryIndex item entries <> (-1)%Z ->
  setProperty H (getValue model)
    [Index (findUserKeybindingEntryIndex item entries); Property "key"]
    (Some (JString key)) (formatting model) = Ok (e1 :: rest1) ->
  setsProperty H (getValue model)
    (findUserKeybindingEntryIndex item entries) "key" (Some (JString key))
    (formatting model) ->
  setsProperty H (patched e1 (getValue model))
    (findUserKeybindingEntryIndex item entries) "when"
    (option_map JString when) (formatting model) ->
  exists model' matched,
    editPatches H item key when model = Ok model'
    /\ nth_error entries
         (Z.to_nat (findUserKeybindingEntryIndex item entries))
       = Some matched
    /\ entryMatches item matched
    /\ userKeybindingEntriesOf H (getValue model')
       = Ok (replaceAt (findUserKeybindingEntryIndex item entries)
               {| key := key; command := command matched; when := when |}
               entries).
Proof.
  intros D E F S1 C1 C2.
  destruct (updateKeybinding_sets item key when model entries e1 rest1
              E F S1 C1 C2) as (text & matched & U & Nth & M & E').
  exists (setValue model text), matched.
  split; [|split; [exact Nth | split; [exact M | exact E']]].
  unfold editPatches. rewrite E. cbn [bind]. rewrite U. cbn [bind].
  destruct (isDefault item); simpl in D |- *.
  - destruct (isSome (resolvedKeybinding item)); [|reflexivity].
    now apply removeDefaultKeybinding_no_label.
  - reflexivity.
Qed.

(** C1, as the code has it.  For a default binding whose key label
    resolves to a string that is not empty and whose command is not
    empty, on a document [resolveAndValidate] accepts whose entries are
    of the declared type, with an editor that appends the element it is
    asked to append and sets the property it is asked to set: the
    document a remove request writes has the entries of the original,
    all of them, followed by one negation entry (the label as key, the
    command after a minus sign, the serialized when of the binding,
    left out if there is none); the document an assign request writes
    has the entries of the original with the override entry appended
    (no entry matching) or with the key and the when of the first match
    set (an entry matching), none deleted, followed by that same one
    negation entry. *)
Theorem default_binding_gets_negation_entry
    (item : ResolvedKeybindingItem K) (label c : string) (w : World H)
    (model : ITextModel) (entries : list IUserFriendlyKeybinding) :
  isDefault item = true ->
  resolvedLabel item = Some label ->
  label <> "" ->
  itemCommand item = Some c ->
  c <> "" ->
  snd (run (resolveAndValidate H) w) = Ok model ->
  userKeybindingEntriesOf H (getValue model) = Ok entries ->
  (appendsElement H (getValue model)
     (asObject label (Some c) (option_map (serialize K) (itemWhen item)) true)
     (formatting model) ->
   exists text,
     writes (log (fst (run (cycle H (RemoveKeybinding item)) w)))
     = (writes (log w) ++ [text])%list
     /\ userKeybindingEntriesOf H text
        = Ok (entries ++ [negationEntry item label c])%list)
  /\ (forall (key : string) (when : option string),
        findUserKeybindingEntryIndex item entries = (-1)%Z ->
        appendsElement H (getValue model) (asObject key (Some c) when false)
          (formatting model) ->
        (forall model1,
           updateKeybinding H item key when model (-1) = Ok model1 ->
           appendsElement H (getValue model1)
             (asObject label (Some c)
                (option_map (serialize K) (itemWhen item)) true)
             (formatting model1)) ->
        exists text,
          writes (log (fst (run (cycle H (EditKeybinding item key when)) w)))
          = (writes (log w) ++ [text])%list
          /\ userKeybindingEntriesOf H text
             = Ok (entries
                   ++ [{| key := key; command := c;
                          when := writtenWhen when |};
                       negationEntry item label c])%list)
  /\ (forall (key : string) (when : option string) (e1 : Edit)
             (rest1 : list Edit),
        findUserKeybindingEntryIndex item entries <> (-1)%Z ->
        setProperty H (getValue model)
          [Index (findUserKeybindingEntryIndex item entries); Property "key"]
          (Some (JString key)) (formatting model) = Ok (e1 :: rest1) ->
        setsProperty H (getValue model)
          (findUserKeybindingEntryIndex item entries) "key"
          (Some (JString key)) (formatting model) ->
        setsProperty H (patched e1 (getValue model))
          (findUserKeybindingEntryIndex item entries) "when"
          (option_map JString when) (formatting model) ->
        (forall model1,
           updateKeybinding H item key when model
             (findUserKeybindingEntryIndex item entries) = Ok model1 ->
           appendsElement H (getValue model1)
             (asObject label (Some c)
                (option_map (serialize K) (itemWhen item)) true)
             (formatting model1)) ->
        exists text matched,
          writes (log (fst (run (cycle H (EditKeybinding item key when)) w)))
          = (writes (log w) ++ [text])%list
          /\ nth_error entries
               (Z.to_nat (findUserKeybindingEntryIndex item entries))
             = Some matched
          /\ userKeybindingEntriesOf H text
             = Ok (replaceAt (findUserKeybindingEntryIndex item entries)
                     {| key := key; command := command matched;
                        when := when |}
                     entries
                   ++ [negationEntry item label c])%list).
Proof.
  intros D L Ln C Cn V E.
  assert (Dflt : isDefault item && isSome (resolvedKeybinding item) = true).
  { rewrite D. unfold resolvedLabel in L.
    destruct (resolvedKeybinding item); [reflexivity | discriminate]. }
  split; [|split].
  - intros A.
    destruct (removeDefaultKeybinding_appends item label c model entries
                L Ln C Cn E A) as (model' & R & E').
    assert (P : patches H (RemoveKeybinding item) model = Ok model').
    { cbn [patches]. unfold removePatches. now rewrite D. }
    destruct (patched_model_is_written K H _ w model model' V P) as [Wr _].
    exists (getValue model'). split; [exact Wr | exact E'].
  - intros key when F A A1.
    destruct (updateKeybinding_appends item key c when model entries C Cn E A)
      as (text & U & E1).
    destruct (removeDefaultKeybinding_appends item label c
                (setValue model text) _ L Ln C Cn E1 (A1 _ U))
      as (model' & R & E').
    assert (P : patches H (EditKeybinding item key when) model = Ok model').
    { cbn [patches]. unfold editPatches. rewrite E. cbn [bind].
      rewrite F, U. cbn [bind]. now rewrite Dflt. }
    destruct (patched_model_is_written K H _ w model model' V P) as [Wr _].
    exists (getValue model'). split; [exact Wr|].
    rewrite E', <- app_assoc. reflexivity.
  - intros key when e1 rest1 F S1 C1 C2 A1.
    destruct (updateKeybinding_sets item key when model entries e1 rest1
                E F S1 C1 C2) as (text & matched & U & Nth & _ & E1).
    destruct (removeDefaultKeybinding_appends item label c
                (setValue model text) _ L Ln C Cn E1 (A1 _ U))
      as (model' & R & E').
    assert (P : patches H (EditKeybinding item key when) model = Ok model').
    { cbn [patches]. unfold editPatches. rewrite E. cbn [bind].
      rewrite U. cbn [bind]. now rewrite Dflt. }
    destruct (patched_model_is_written K H _ w model model' V P) as [Wr _].
    exists (getValue model'), matched.
    split; [exact Wr|]. split; [exact Nth | exact E'].
Qed.

(** X14.  Removing, from the last to the first, the elements at the
    indices [findUnassignedDefaultKeybindingEntryIndex] returns leaves
    the entries that are not negation entries of the binding, in their
    order: taken in reverse, the indices computed on the document before
    the first removal are still the right ones after each removal. *)
Theorem removals_in_reverse_leave_the_other_entries
    (item : ResolvedKeybindingItem K)
    (entries : list IUserFriendlyKeybinding) :
  fold_left (fun l index => removeAt index l)
    (rev (findUnassignedDefaultKeybindingEntryIndex item entries)) entries
  = filter (fun kb => negb (isNegationOf item kb)) entries
  /\ Forall (fun kb => command kb <> negated (itemCommand item))
       (fold_left (fun l index => removeAt index l)
          (rev (findUnassignedDefaultKeybindingEntryIndex item entries))
          entries).
Proof.
  rewrite unassigned_indices. split; [reflexivity|].
  apply Forall_forall. intros kb In. apply filter_In in In.
  destruct In as [_ In]. unfold isNegationOf in In.
  apply negb_true_iff in In. now apply String.eqb_neq.
Qed.

End PatchesMore.

(** ** The properties on the reference collaborators, continued *)

Lemma matcher_cannot_tell_equivalent_whens_witness :
  findUserKeybindingEntryIndex defaultAB entriesAB
  = findUserKeybindingEntryIndex userAB entriesBA
  /\ findUserKeybindingEntryIndex defaultAB entriesAB = 1%Z.
Proof.
  split; [|vm_compute; reflexivity].
  apply (matcher_cannot_tell_equivalent_whens Reference.contextKeys).
  - split; reflexivity.
  - repeat constructor; vm_compute; reflexivity.
Defined.

Lemma validate_keeps_text_witness :
  EOL (setValue nullModel ("null" ++ eolText LF ++ "[]")) = EOL nullModel
  /\ options (setValue nullModel ("null" ++ eolText LF ++ "[]"))
     = options nullModel
  /\ exists suffix,
       getValue (setValue nullModel ("null" ++ eolText LF ++ "[]"))
       = getValue nullModel ++ suffix
       /\ (suffix = ""
           \/ suffix = getEOL nullModel ++ "[]"
           \/ (getValue nullModel = ""
               /\ suffix = getEmptyContent (getEOL nullModel))).
Proof.
  apply (validate_keeps_text Reference.host).
  vm_compute. reflexivity.
Defined.

Lemma fulfilled_cycle_reads_writes_and_releases_witness :
  exists stored model model',
    read Reference.host (store (world (disk twoWhens))) = Ok stored
    /\ validate Reference.host
         (createModel Reference.host (orElse stored "[]")) = Ok model
    /\ patches Reference.host (RemoveKeybinding userC) model = Ok model'
    /\ log (fst (run (cycle Reference.host (RemoveKeybinding userC))
                   (world (disk twoWhens))))
       = (log (world (disk twoWhens))
          ++ [DidRead; DidModel Created; DidWrite (getValue model');
              DidModel Disposed; DidModel Destroyed])%list
    /\ store (fst (run (cycle Reference.host (RemoveKeybinding userC))
                     (world (disk twoWhens))))
       = snd (write Reference.host (getValue model')
                (store (world (disk twoWhens)))).
Proof.
  apply (fulfilled_cycle_reads_writes_and_releases Reference.contextKeys
           Reference.host (RemoveKeybinding userC) (world (disk twoWhens))).
  vm_compute. reflexivity.
Defined.

Lemma failure_before_persist_leaves_model_witness :
  snd (run (cycle Reference.host (RemoveKeybinding userC))
         (world (disk brokenText)))
  = Throw parseErrors
  /\ log (fst (run (cycle Reference.host (RemoveKeybinding userC))
                 (world (disk brokenText))))
     = (log (world (disk brokenText)) ++ [DidRead; DidModel Created])%list
  /\ store (fst (run (cycle Reference.host (RemoveKeybinding userC))
                   (world (disk brokenText))))
     = store (world (disk brokenText)).
Proof.
  apply (failure_before_persist_leaves_model Reference.contextKeys
           Reference.host (RemoveKeybinding userC) (world (disk brokenText))
           (Some brokenText) parseErrors).
  - reflexivity.
  - left. vm_compute. reflexivity.
Defined.

Lemma reset_of_default_writes_document_back_witness :
  writes (log (fst (run (cycle Reference.host (ResetKeybinding defaultC))
                      (world (disk mixedEnds)))))
  = (writes (log (world (disk mixedEnds)))
     ++ [getValue (createModel Reference.host mixedEnds)])%list
  /\ snd (run (cycle Reference.host (ResetKeybinding defaultC))
            (world (disk mixedEnds)))
     = fst (write Reference.host
              (getValue (createModel Reference.host mixedEnds))
              (store (world (disk mixedEnds))))
  /\ store (fst (run (cycle Reference.host (ResetKeybinding defaultC))
                   (world (disk mixedEnds))))
     = snd (write Reference.host
              (getValue (createModel Reference.host mixedEnds))
              (store (world (disk mixedEnds)))).
Proof.
  apply (reset_of_default_writes_document_back Reference.contextKeys
           Reference.host defaultC (world (disk mixedEnds)) mixedEnds).
  - reflexivity.
  - reflexivity.
  - vm_compute. intros N. discriminate N.
  - vm_compute. reflexivity.
  - vm_compute. reflexivity.
Defined.

Lemma remove_of_user_binding_removes_first_match_witness :
  findUserKeybindingEntryIndex userC twoWhensEntries = 1%Z
  /\ exists model',
       removePatches Reference.host userC twoWhensModel = Ok model'
       /\ userKeybindingEntriesOf Reference.host (getValue model')
          = Ok (removeAt (findUserKeybindingEntryIndex userC twoWhensEntries)
                  twoWhensEntries)
       /\ List.length
            (removeAt (findUserKeybindingEntryIndex userC twoWhensEntries)
               twoWhensEntries)
          + 1 = List.length twoWhensEntries.
Proof.
  split; [vm_compute; reflexivity|].
  apply (proj2 (remove_of_user_binding_removes_first_match
                  Reference.contextKeys Reference.host userC twoWhensModel
                  twoWhensEntries eq_refl ltac:(vm_compute; reflexivity))).
  - vm_compute. intros N. discriminate N.
  - vm_compute. reflexivity.
Defined.

Lemma assign_without_user_entry_appends_one_witness :
  exists model',
    editPatches Reference.host userD "ctrl+d" (Some "y") oneEntryModel
    = Ok model'
    /\ userKeybindingEntriesOf Reference.host (getValue model')
       = Ok (oneEntryEntries
             ++ [{| key := "ctrl+d"; command := "d";
                    when := writtenWhen (Some "y") |}])%list.
Proof.
  apply (assign_without_user_entry_appends_one Reference.contextKeys
           Reference.host userD "ctrl+d" "d" (Some "y") oneEntryModel
           oneEntryEntries).
  - reflexivity.
  - reflexivity.
  - discriminate.
  - vm_compute. reflexivity.
  - vm_compute. reflexivity.
  - vm_compute. reflexivity.
Defined.

Lemma assign_of_default_without_user_entry_appends_two_witness :
  exists model',
    editPatches Reference.host defaultBar "ctrl+j" (Some "editorFocus")
      noEntryModel
    = Ok model'
    /\ userKeybindingEntriesOf Reference.host (getValue model')
       = Ok ([]
             ++ [{| key := "ctrl+j"; command := "bar";
                    when := writtenWhen (Some "editorFocus") |};
                 negationEntry defaultBar "ctrl+o" "bar"])%list.
Proof.
  eapply (assign_of_default_without_user_entry_appends_two
            Reference.contextKeys Reference.host defaultBar "ctrl+j" "ctrl+o"
            "bar" (Some "editorFocus") noEntryModel).
  - reflexivity.
  - reflexivity.
  - discriminate.
  - reflexivity.
  - discriminate.
  - vm_compute. reflexivity.
  - vm_compute. reflexivity.
  - vm_compute. reflexivity.
  - vm_compute. reflexivity.
  - vm_compute. reflexivity.
Defined.

Lemma assign_on_user_entry_sets_key_and_when_witness :
  exists model' matched,
    editPatches Reference.host userC "b" (Some "y") oneEntryModel = Ok model'
    /\ nth_error oneEntryEntries
         (Z.to_nat (findUserKeybindingEntryIndex userC oneEntryEntries))
       = Some matched
    /\ entryMatches userC matched
    /\ userKeybindingEntriesOf Reference.host (getValue model')
       = Ok (replaceAt (findUserKeybindingEntryIndex userC oneEntryEntries)
               {| key := "b"; command := command matched; when := Some "y" |}
               oneEntryEntries).
Proof.
  apply (assign_on_user_entry_sets_key_and_when Reference.contextKeys
           Reference.host userC "b" (Some "y") oneEntryModel oneEntryEntries
           keyEdit []).
  - reflexivity.
  - vm_compute. reflexivity.
  - vm_compute. intros N. discriminate N.
  - vm_compute. reflexivity.
  - vm_compute.
    exists [("key", JString "a"); ("command", JString "c")],
           [("key", JString "b"); ("command", JString "c")].
    split; [discriminate|]. split; [reflexivity|]. split; [reflexivity|].
    split; [reflexivity|].
    intros other N.
    destruct other as [|[[] [] [] [] [] [] [] []] rest]; try reflexivity.
    destruct rest as [|[[] [] [] [] [] [] [] []] rest]; try reflexivity.
    destruct rest as [|[[] [] [] [] [] [] [] []] rest]; try reflexivity.
    destruct rest; [exfalso; apply N; reflexivity | reflexivity].
  - vm_compute.
    exists [("key", JString "b"); ("command", JString "c")],
           [("key", JString "b"); ("command", JString "c");
            ("when", JString "y")].
    split; [discriminate|]. split; [reflexivity|]. split; [reflexivity|].
    split; [reflexivity|].
    intros other N.
    destruct other as [|[[] [] [] [] [] [] [] []] rest]; try reflexivity.
    destruct rest as [|[[] [] [] [] [] [] [] []] rest]; try reflexivity.
    destruct rest as [|[[] [] [] [] [] [] [] []] rest]; try reflexivity.
    destruct rest as [|[[] [] [] [] [] [] [] []] rest]; try reflexivity.
    destruct rest; [exfalso; apply N; reflexivity | reflexivity].
Defined.

(** A remove request for a default binding without a keybinding, or
    with an empty label, appends nothing: the document is written back
    as it was.  For a default binding whose command is null, or empty,
    the entry appended has no command. *)
Lemma remove_of_unbound_default_appends_nothing :
  isDefault unboundC = true
  /\ resolvedLabel unboundC = None
  /\ snd (run (doRemoveKeybinding Reference.host unboundC)
            (world (disk oneEntry)))
     = Ok tt
  /\ Reference.file
       (store (fst (run (doRemoveKeybinding Reference.host unboundC)
                      (world (disk oneEntry)))))
     = Some oneEntry
  /\ isDefault emptyLabelC = true
  /\ resolvedLabel emptyLabelC = Some ""
  /\ Reference.file
       (store (fst (run (doRemoveKeybinding Reference.host emptyLabelC)
                      (world (disk oneEntry)))))
     = Some oneEntry
  /\ isDefault nullCommand = true
  /\ resolvedLabel nullCommand = Some "ctrl+x"
  /\ itemCommand nullCommand = None
  /\ (exists text,
        Reference.file
          (store (fst (run (doRemoveKeybinding Reference.host nullCommand)
                         (world (disk oneEntry)))))
        = Some text
        /\ arrayOf Reference.host text
           = Some [JObject [("key", JString "a"); ("command", JString "c")];
                   JObject [("key", JString "ctrl+x")]])
  /\ isDefault emptyCommand = true
  /\ itemCommand emptyCommand = Some ""
  /\ exists text,
       Reference.file
         (store (fst (run (doRemoveKeybinding Reference.host emptyCommand)
                        (world (disk oneEntry)))))
       = Some text
       /\ arrayOf Reference.host text
          = Some [JObject [("key", JString "a"); ("command", JString "c")];
                  JObject [("key", JString "ctrl+x")]].
Proof.
  do 10 (split; [vm_compute; reflexivity|]).
  split.
  { eexists. split; [vm_compute; reflexivity | vm_compute; reflexivity]. }
  do 2 (split; [reflexivity|]).
  eexists. split; [vm_compute; reflexivity | vm_compute; reflexivity].
Qed.

Lemma default_binding_gets_negation_entry_witness :
  (exists text,
     writes (log (fst (run (cycle Reference.host (RemoveKeybinding defaultC))
                         (world (disk twoWhens)))))
     = (writes (log (world (disk twoWhens))) ++ [text])%list
     /\ userKeybindingEntriesOf Reference.host text
        = Ok (twoWhensEntries ++ [negationEntry defaultC "ctrl+x" "c"])%list)
  /\ (exists text matched,
        writes (log (fst (run (cycle Reference.host
                                 (EditKeybinding defaultC "ctrl+j" (Some "y")))
                            (world (disk twoWhens)))))
        = (writes (log (world (disk twoWhens))) ++ [text])%list
        /\ nth_error twoWhensEntries
             (Z.to_nat (findUserKeybindingEntryIndex defaultC twoWhensEntries))
           = Some matched
        /\ userKeybindingEntriesOf Reference.host text
           = Ok (replaceAt
                   (findUserKeybindingEntryIndex defaultC twoWhensEntries)
                   {| key := "ctrl+j"; command := command matched;
                      when := Some "y" |}
                   twoWhensEntries
                 ++ [negationEntry defaultC "ctrl+x" "c"])%list)
  /\ (exists text,
        writes (log (fst (run (cycle Reference.host
                                 (EditKeybinding defaultBar "ctrl+j"
                                    (Some "editorFocus")))
                            (world (disk noEntry)))))
        = (writes (log (world (disk noEntry))) ++ [text])%list
        /\ userKeybindingEntriesOf Reference.host text
           = Ok ([]
                 ++ [{| key := "ctrl+j"; command := "bar";
                        when := writtenWhen (Some "editorFocus") |};
                     negationEntry defaultBar "ctrl+o" "bar"])%list).
Proof.
  destruct (default_binding_gets_negation_entry Reference.contextKeys
              Reference.host defaultC "ctrl+x" "c" (world (disk twoWhens))
              twoWhensModel twoWhensEntries
              eq_refl eq_refl ltac:(discriminate) eq_refl ltac:(discriminate)
              ltac:(vm_compute; reflexivity) ltac:(vm_compute; reflexivity))
    as (R & _ & M).
  destruct (default_binding_gets_negation_entry Reference.contextKeys
              Reference.host defaultBar "ctrl+o" "bar" (world (disk noEntry))
              noEntryModel []
              eq_refl eq_refl ltac:(discriminate) eq_refl ltac:(discriminate)
              ltac:(vm_compute; reflexivity) ltac:(vm_compute; reflexivity))
    as (_ & N & _).
  split; [|split].
  - apply R. vm_compute. reflexivity.
  - apply (M "ctrl+j" (Some "y")
             {| offset := 8; length := 3;
                content := Reference.json "'ctrl+j'" |}
             []).
    + vm_compute. intros E. discriminate E.
    + vm_compute. reflexivity.
    + unfold setsProperty.
      replace (arrayOf Reference.host (getValue twoWhensModel))
        with (Some [JObject [("key", JString "a"); ("command", JString "c");
                             ("when", JString "x")];
                    JObject [("key", JString "b"); ("command", JString "c")]])
        by (vm_compute; reflexivity).
      replace (setProperty Reference.host (getValue twoWhensModel)
                 [Index (findUserKeybindingEntryIndex defaultC twoWhensEntries);
                  Property "key"] (Some (JString "ctrl+j"))
                 (formatting twoWhensModel))
        with (Ok [{| offset := 8; length := 3;
                     content := Reference.json "'ctrl+j'" |}])
        by (vm_compute; reflexivity).
      exists [("key", JString "a"); ("command", JString "c");
              ("when", JString "x")],
             [("key", JString "ctrl+j"); ("command", JString "c");
              ("when", JString "x")].
      split; [vm_compute; discriminate|]. split; [reflexivity|].
      split; [vm_compute; reflexivity|]. split; [reflexivity|].
      intros other O. now rewrite !(lookupProperty_skip other "key").
    + unfold setsProperty.
      replace (arrayOf Reference.host
                 (patched {| offset := 8; length := 3;
                             content := Reference.json "'ctrl+j'" |}
                    (getValue twoWhensModel)))
        with (Some [JObject [("key", JString "ctrl+j");
                             ("command", JString "c"); ("when", JString "x")];
                    JObject [("key", JString "b"); ("command", JString "c")]])
        by (vm_compute; reflexivity).
      replace (setProperty Reference.host
                 (patched {| offset := 8; length := 3;
                             content := Reference.json "'ctrl+j'" |}
                    (getValue twoWhensModel))
                 [Index (findUserKeybindingEntryIndex defaultC twoWhensEntries);
                  Property "when"] (option_map JString (Some "y"))
                 (formatting twoWhensModel))
        with (Ok [{| offset := 38; length := 3;
                     content := Reference.json "'y'" |}])
        by (vm_compute; reflexivity).
      exists [("key", JString "ctrl+j"); ("command", JString "c");
              ("when", JString "x")],
             [("key", JString "ctrl+j"); ("command", JString "c");
              ("when", JString "y")].
      split; [vm_compute; discriminate|]. split; [reflexivity|].
      split; [vm_compute; reflexivity|]. split; [reflexivity|].
      intros other O. do 2 apply lookupProperty_under.
      now rewrite !(lookupProperty_skip other "when").
    + intros model1 U. vm_compute in U. injection U as <-.
      vm_compute. reflexivity.
  - apply (N "ctrl+j" (Some "editorFocus")).
    + vm_compute. reflexivity.
    + vm_compute. reflexivity.
    + intros model1 U. vm_compute in U. injection U as <-.
      vm_compute. reflexivity.
Defined.
